(** * star-gift: the morphing particle scene, its smoothing loop and its
      gesture mapper, embedded in Rocq.

    JavaScript and GLSL numbers are modelled as mathematical reals: every
    statement below is about the arithmetic the source writes down, with
    rounding (binary64 in TypeScript, binary32 in [Float32Array] and in the
    shader) left out.  [Math.abs], [Math.min], [Math.max], [Math.sqrt],
    [Math.sin], [Math.cos], [Math.acos] and [Math.PI] are the functions of
    the same name of the standard library of reals.  A read that throws in
    TypeScript and a result that GLSL leaves undefined (the direction of the
    zero vector, a power of a negative base) are [None]. *)

From Stdlib Require Import Reals Lra Lia List Bool Arith ZArith.
From Stdlib Require String.
Import ListNotations.

Open Scope R_scope.

(** ** Numeric helpers shared by the TypeScript and the GLSL code *)

Module Num.

(** [a < b] as the condition of an [if]. *)
Definition ltb (a b : R) : bool := if Rlt_dec a b then true else false.

(** [Math.min(Math.max(x, lo), hi)], the clamp that [App.tsx] and the hand
    tracker write inline; GLSL's [clamp(x, lo, hi)] is the same expression. *)
Definition clamp (x lo hi : R) : R := Rmin (Rmax x lo) hi.

(** [Math.cbrt]: the real cube root, odd and zero at zero. *)
Definition cbrt (x : R) : R :=
  if Req_dec_T x 0 then 0
  else if Rlt_dec 0 x then exp (ln x / 3)
  else - exp (ln (- x) / 3).

End Num.

(** ** types.ts *)

Inductive TreeState : Set := SCATTERED | ASSEMBLED.

Definition TreeState_eqb (a b : TreeState) : bool :=
  match a, b with
  | SCATTERED, SCATTERED | ASSEMBLED, ASSEMBLED => true
  | _, _ => false
  end.

(** ** App.tsx: the state of the [App] component

    The [useState] cells and the two [useRef] cells of [App], as one
    record.  An event handler or a tick of the loop maps the record before it
    to the record after it. *)

Record AppState : Type := mkApp {
  hasStarted      : bool;
  treeState       : TreeState;
  morphProgress   : R;
  handDetected    : bool;
  handHeight      : R;
  targetMorphRef  : R;
  targetHeightRef : R
}.

(** The initial values of the hooks. *)
Definition initialApp : AppState :=
  mkApp false ASSEMBLED 0 false 0.5 0 0.5.

Module Smoothing.

(** The updater handed to [setMorphProgress] and to [setHandHeight]: the two
    differ in the rate constant only, which is the parameter [k]. *)
Definition approach (k target prev : R) : R :=
  let diff := target - prev in
  if Num.ltb (Rabs diff) 0.001 then target else prev + diff * k.

Definition morphUpdater (target prev : R) : R := approach 0.08 target prev.
Definition heightUpdater (target prev : R) : R := approach 0.05 target prev.

(** One run of [loop]: both updaters are applied, the refs are read and not
    written. *)
Definition loop (s : AppState) : AppState :=
  mkApp (hasStarted s) (treeState s)
        (morphUpdater (targetMorphRef s) (morphProgress s))
        (handDetected s)
        (heightUpdater (targetHeightRef s) (handHeight s))
        (targetMorphRef s) (targetHeightRef s).

(** [n] consecutive animation frames with no other event in between. *)
Fixpoint ticks (n : nat) (s : AppState) : AppState :=
  match n with
  | O => s
  | S n' => loop (ticks n' s)
  end.

(** The same iteration on one smoothed cell alone. *)
Fixpoint iterate (k target : R) (n : nat) (start : R) : R :=
  match n with
  | O => start
  | S n' => approach k target (iterate k target n' start)
  end.

End Smoothing.

Module Handlers.

(** [onOpen] of the overlay: [setHasStarted(true)]. *)
Definition startExperience (s : AppState) : AppState :=
  mkApp true (treeState s) (morphProgress s) (handDetected s) (handHeight s)
        (targetMorphRef s) (targetHeightRef s).

(** The discrete mode chosen from the clamped spread of a detected reading. *)
Definition modeAfter (morphVal : R) (old : TreeState) : TreeState :=
  if Num.ltb 0.6 morphVal then SCATTERED
  else if Num.ltb morphVal 0.4 then ASSEMBLED
  else old.

(** [handleHandUpdate] is a [useCallback] closure over [hasStarted] and
    [treeState]: it reads the two values of the render that created it, the
    parameters [started] and [mode]; the setters and the refs act on the
    state [s] at the time of the call.  A mode that is not set stays what it
    is in [s]. *)
Definition handleHandUpdate (started : bool) (mode : TreeState)
    (s : AppState) (distance height : R) (detected : bool) : AppState :=
  if negb started then s
  else if detected then
    let morphVal := Rmin (Rmax distance 0) 1 in
    mkApp (hasStarted s) (modeAfter morphVal (treeState s)) (morphProgress s)
          detected (handHeight s) morphVal height
  else
    mkApp (hasStarted s) (treeState s) (morphProgress s)
          detected (handHeight s)
          (if TreeState_eqb mode ASSEMBLED then 0 else 1)
          (targetHeightRef s).

(** The value [App] passes as the [onHandUpdate] prop in the render that
    shows the state [s]: the handler closed over the values of [s].  The hand
    tracker does not follow this prop from render to render, see
    [mountedCallback]. *)
Definition onHandUpdate (s : AppState) (distance height : R)
    (detected : bool) : AppState :=
  handleHandUpdate (hasStarted s) (treeState s) s distance height detected.


Definition toggleState (s : AppState) : AppState :=
  let newState :=
    if TreeState_eqb (treeState s) ASSEMBLED then SCATTERED else ASSEMBLED in
  mkApp (hasStarted s) newState (morphProgress s) (handDetected s)
        (handHeight s)
        (if TreeState_eqb newState ASSEMBLED then 0 else 1)
        (targetHeightRef s).

End Handlers.

(** ** The hand tracker ([predictWebcam]) *)

Module HandTracker.

(** A landmark of the recognizer, in normalized image coordinates. *)
Record Landmark : Type := mkLandmark { lx : R; ly : R; lz : R }.

(** One hand: the array of its landmarks (21 of them from the recognizer). *)
Definition Hand : Type := list Landmark.

(** [results] of [detectForVideo]; [landmarks] may be absent. *)
Record Results : Type := mkResults { landmarks : option (list Hand) }.

(** What [onHandUpdate] is called with. *)
Record Reading : Type := mkReading {
  distance : R;
  height   : R;
  detected : bool
}.

(** [hand[i]] followed by a property read: [None] stands for the
    [TypeError] of reading [.x] of [undefined]. *)
Definition at_index (h : Hand) (i : nat) : option Landmark := nth_error h i.

Definition bindOpt {A B : Type} (o : option A) (f : A -> option B) : option B :=
  match o with
  | Some a => f a
  | None => None
  end.

(** The values of [distance], [height] and [detected] before the clamp. *)
Definition interaction (results : Results) : option Reading :=
  match landmarks results with
  | None | Some [] => Some (mkReading 0 0.5 false)
  | Some [hand0; hand1] =>
      bindOpt (at_index hand0 8) (fun handA =>
      bindOpt (at_index hand1 8) (fun handB =>
        let dx := lx handA - lx handB in
        let dy := ly handA - ly handB in
        let avgY := (ly handA + ly handB) / 2 in
        Some (mkReading (sqrt (dx * dx + dy * dy)) (1.0 - avgY) true)))
  | Some [hand] =>
      bindOpt (at_index hand 4) (fun thumb =>
      bindOpt (at_index hand 20) (fun pinky =>
      bindOpt (at_index hand 8) (fun index =>
        let dx := lx thumb - lx pinky in
        let dy := ly thumb - ly pinky in
        Some (mkReading (sqrt (dx * dx + dy * dy) * 2.0) (1.0 - ly index)
                        true))))
  | Some _ => Some (mkReading 0 0.5 true)
  end.

(** The Euclidean distance of two landmarks in the image plane, as the
    specification words it. *)
Definition euclidean (a b : Landmark) : R :=
  sqrt ((lx a - lx b) ^ 2 + (ly a - ly b) ^ 2).

(** The reading after [// Clamp values]: what is delivered. *)
Definition delivered (results : Results) : option Reading :=
  bindOpt (interaction results) (fun r =>
    Some (mkReading (Rmin (Rmax (distance r) 0) 1.2)
                    (Rmin (Rmax (height r) 0) 1)
                    (detected r))).

(** One processed camera frame: the delivered reading is handed to the
    [onHandUpdate] prop. *)
Definition predictWebcam
    (onHandUpdate : AppState -> R -> R -> bool -> AppState)
    (results : Results) (s : AppState) : option AppState :=
  bindOpt (delivered results) (fun r =>
    Some (onHandUpdate s (distance r) (height r) (detected r))).

End HandTracker.

(** ** utils/geometry: the procedural geometry *)

Module Geometry.

(** [THREE.Vector3]. *)
Record Vector3 : Type := mkVec { vx : R; vy : R; vz : R }.

Definition vadd (a b : Vector3) : Vector3 :=
  mkVec (vx a + vx b) (vy a + vy b) (vz a + vz b).

Definition vscale (a : Vector3) (c : R) : Vector3 :=
  mkVec (vx a * c) (vy a * c) (vz a * c).

(** Euclidean length, and the distance from the vertical ([y]) axis. *)
Definition vlength (a : Vector3) : R :=
  sqrt (vx a * vx a + vy a * vy a + vz a * vz a).

Definition radial (a : Vector3) : R := sqrt (vx a * vx a + vz a * vz a).

(** *** The random source

    [Math.random] is a stream of numbers read one after the other: the state
    is the stream and the position of the next number to hand out. *)
Record RandomSource : Type := mkSource { stream : nat -> R; pos : nat }.

(** Every number of the stream is in [0, 1), as [Math.random] promises. *)
Definition uniform (g : RandomSource) : Prop :=
  forall n : nat, 0 <= stream g n < 1.

Definition Rand (A : Type) : Type := RandomSource -> A * RandomSource.

Definition ret {A : Type} (a : A) : Rand A := fun g => (a, g).

Definition bind {A B : Type} (m : Rand A) (f : A -> Rand B) : Rand B :=
  fun g => let (a, g') := m g in f a g'.

Notation "x <- m ;; k" := (bind m (fun x => k))
  (at level 61, m at next level, right associativity).

Definition Math_random : Rand R :=
  fun g => (stream g (pos g), mkSource (stream g) (S (pos g))).

(** The source after [k] more numbers have been read. *)
Definition advance (k : nat) (g : RandomSource) : RandomSource :=
  mkSource (stream g) (k + pos g).

(** *** Constants *)
Definition FOLIAGE_COUNT : nat := Z.to_nat 15000.
Definition TREE_HEIGHT : R := 7.0.
Definition TREE_RADIUS : R := 2.8.
Definition SCATTER_RADIUS : R := 12.0.

Definition getRandomPointInSphere (radius : R) : Rand Vector3 :=
  u <- Math_random ;;
  v <- Math_random ;;
  let theta := 2 * PI * u in
  let phi := acos (2 * v - 1) in
  w <- Math_random ;;
  let r := Num.cbrt w * radius in
  let sinPhi := sin phi in
  ret (mkVec (r * sinPhi * cos theta) (r * sinPhi * sin theta) (r * cos phi)).

Definition getRandomPointInCone (height maxRadius : R) : Rand Vector3 :=
  a <- Math_random ;;
  let y := a * height in
  let rAtY := (1 - y / height) * maxRadius in
  b <- Math_random ;;
  let r := sqrt b * rAtY in
  c <- Math_random ;;
  let theta := c * PI * 2 in
  ret (mkVec (r * cos theta) (y - height / 2 - 0.5) (r * sin theta)).

(** The radius of the cone of [getRandomPointInCone] at world height [py]:
    [rAtY] written in terms of the returned [y] coordinate. *)
Definition coneRadiusAt (height maxRadius py : R) : R :=
  (1 - (py + height / 2 + 0.5) / height) * maxRadius.

(** *** [Float32Array]

    A length and the cells; a write outside the length is ignored, as for
    every typed array.  The cells start at zero. *)
Record Float32Array : Type := mkArray { len : nat; cell : nat -> R }.

Definition newFloat32Array (n : nat) : Float32Array := mkArray n (fun _ => 0).

Definition aset (a : Float32Array) (i : nat) (v : R) : Float32Array :=
  if (i <? len a)%nat
  then mkArray (len a) (fun j => if (j =? i)%nat then v else cell a j)
  else a.

(** The three writes [a[i * 3] = v.x; a[i * 3 + 1] = v.y;
    a[i * 3 + 2] = v.z]. *)
Definition store3 (a : Float32Array) (i : nat) (v : Vector3) : Float32Array :=
  aset (aset (aset a (i * 3) (vx v)) (i * 3 + 1) (vy v)) (i * 3 + 2) (vz v).

Record FoliageData : Type := mkFoliage {
  scatterPositions : Float32Array;
  treePositions    : Float32Array;
  randoms          : Float32Array;
  sizes            : Float32Array;
  count            : nat
}.

(** The four arrays while the loop of [generateFoliage] runs. *)
Record Buffers : Type := mkBuffers {
  bScatter : Float32Array;
  bTree    : Float32Array;
  bRandoms : Float32Array;
  bSizes   : Float32Array
}.

(** The jitter vector added to the tree position, [// Add volume fluffiness]. *)
Definition fluff : Rand Vector3 :=
  jx <- Math_random ;;
  jy <- Math_random ;;
  jz <- Math_random ;;
  ret (mkVec ((jx - 0.5) * 0.3) ((jy - 0.5) * 0.3) ((jz - 0.5) * 0.3)).

(** The body of the [for] loop of [generateFoliage] at index [i]. *)
Definition foliageBody (i : nat) (b : Buffers) : Rand Buffers :=
  scatter <- getRandomPointInSphere SCATTER_RADIUS ;;
  let sc := store3 (bScatter b) i scatter in
  cone <- getRandomPointInCone TREE_HEIGHT TREE_RADIUS ;;
  j <- fluff ;;
  let tree := vadd cone j in
  let tr := store3 (bTree b) i tree in
  rnd <- Math_random ;;
  let ra := aset (bRandoms b) i rnd in
  coin <- Math_random ;;
  sz <- Math_random ;;
  let si := aset (bSizes b) i
                 (if Num.ltb 0.9 coin then 2.0 + sz * 2.0 else 0.5 + sz * 0.8) in
  ret (mkBuffers sc tr ra si).

(** [for (let i = from; i < from + n; i++) body]. *)
Fixpoint foliageLoop (n from : nat) (b : Buffers) : Rand Buffers :=
  match n with
  | O => ret b
  | S n' => b' <- foliageBody from b ;; foliageLoop n' (S from) b'
  end.

(** [generateFoliage] for a particle count [n]. *)
Definition generateFoliageOf (n : nat) : Rand FoliageData :=
  b <- foliageLoop n 0
         (mkBuffers (newFloat32Array (n * 3)) (newFloat32Array (n * 3))
                    (newFloat32Array n) (newFloat32Array n)) ;;
  ret (mkFoliage (bScatter b) (bTree b) (bRandoms b) (bSizes b) n).

Definition generateFoliage : Rand FoliageData :=
  generateFoliageOf FOLIAGE_COUNT.

(** Particle [i] of the generated data: three consecutive cells. *)
Definition positionAt (a : Float32Array) (i : nat) : Vector3 :=
  mkVec (cell a (i * 3)) (cell a (i * 3 + 1)) (cell a (i * 3 + 2)).

Definition scatterPosition (d : FoliageData) (i : nat) : Vector3 :=
  positionAt (scatterPositions d) i.

Definition formationPosition (d : FoliageData) (i : nat) : Vector3 :=
  positionAt (treePositions d) i.

End Geometry.

(** ** components/ParticleScene: the blend of the two formations *)

Module ParticleScene.

Import Geometry.

(** *** GLSL built-ins used by the foliage vertex shader *)

Definition mix (x y a : R) : R := x * (1 - a) + y * a.

Definition mix3 (p q : Vector3) (a : R) : Vector3 :=
  mkVec (mix (vx p) (vx q) a) (mix (vy p) (vy q) a) (mix (vz p) (vz q) a).

Definition smoothstep (edge0 edge1 x : R) : R :=
  let t := Num.clamp ((x - edge0) / (edge1 - edge0)) 0 1 in
  t * t * (3 - 2 * t).

(** [normalize(v)]: [v / length(v)].  The zero vector has no direction: the
    division by its length is undefined, which is [None]. *)
Definition normalize (v : Vector3) : option Vector3 :=
  if Req_dec_T (vlength v) 0 then None else Some (vscale v (/ vlength v)).

(** [pow(b, 3.0)]: the cube of a base that is not negative; GLSL leaves the
    result undefined for a negative base, which is [None]. *)
Definition pow3 (b : R) : option R :=
  if Rlt_dec b 0 then None else Some (b ^ 3).

(** *** The foliage vertex shader *)

(** The two branches of [easeInOutCubic] as a function of every real, the
    power read as the cube.  This is the value of the shader's function
    wherever GLSL defines it ([x <= 1], see [shaderEase]), and the value of
    the two TypeScript copies of the formula everywhere, [Math.pow] being
    defined for a negative base. *)
Definition easeInOutCubic (x : R) : R :=
  if Num.ltb x 0.5 then 4.0 * x * x * x
  else 1.0 - (-2.0 * x + 2.0) ^ 3 / 2.0.

(** The shader's [easeInOutCubic] with the domain GLSL gives it: on the
    second branch the base [-2x + 2] of [pow] is negative for [x > 1]. *)
Definition shaderEase (x : R) : option R :=
  if Num.ltb x 0.5 then Some (4.0 * x * x * x)
  else match pow3 (-2.0 * x + 2.0) with
       | Some c => Some (1.0 - c / 2.0)
       | None => None
       end.

Definition localProgress (uMorph aRandom : R) : R :=
  let lp := smoothstep 0.0 1.0 (uMorph * 1.5 - aRandom * 0.5) in
  Num.clamp lp 0.0 1.0.

Definition breathe (uTime uMorph aRandom : R) : R :=
  sin (uTime * 1.5 + aRandom * 10.0) * 0.05
  * (1.0 - localProgress uMorph aRandom).

(** [currentPos] at the point where [main] multiplies it by the model-view
    matrix. *)
Definition currentPos (uTime uMorph : R) (aTreePos aScatterPos : Vector3)
    (aRandom : R) : option Vector3 :=
  let lp := localProgress uMorph aRandom in
  match shaderEase lp with
  | None => None
  | Some e =>
      let p := mix3 aTreePos aScatterPos e in
      match normalize p with
      | None => None
      | Some d => Some (vadd p (vscale d (breathe uTime uMorph aRandom)))
      end
  end.

(** The blend of two positions as the specification words it:
    [lerp(a, b, t) = a + (b - a) * t] on every coordinate. *)
Definition lerp3 (a b : Vector3) (t : R) : Vector3 :=
  mkVec (vx a + (vx b - vx a) * t) (vy a + (vy b - vy a) * t)
        (vz a + (vz b - vz a) * t).

(** *** three.js helpers used by [Ornaments] *)

Module MathUtils.

Definition lerp (x y t : R) : R := (1 - t) * x + t * y.

Definition clamp (value lo hi : R) : R := Rmax lo (Rmin hi value).

End MathUtils.

(** *** [Ornaments]: one item of [updateMesh] *)

Inductive OrnamentType : Set := box | sphere.

Record OrnamentData : Type := mkOrnament {
  id                 : nat;
  type               : OrnamentType;
  oScatterPosition   : Vector3;
  treePosition       : Vector3;
  rotation           : Vector3;
  scale              : R
}.

Definition localMorph (targetMorph : R) (item : OrnamentData) : R :=
  let offset := INR (id item) * 0.002 in
  MathUtils.clamp (targetMorph * 1.2 - offset) 0 1.

Definition smoothMorph (targetMorph : R) (item : OrnamentData) : R :=
  let lm := localMorph targetMorph item in
  if Num.ltb lm 0.5 then 4 * lm * lm * lm
  else 1 - (-2 * lm + 2) ^ 3 / 2.

(** The arguments of [dummy.position.set]. *)
Definition ornamentPosition (targetMorph : R) (item : OrnamentData)
    : Vector3 :=
  let sm := smoothMorph targetMorph item in
  mkVec (MathUtils.lerp (vx (treePosition item)) (vx (oScatterPosition item)) sm)
        (MathUtils.lerp (vy (treePosition item)) (vy (oScatterPosition item)) sm)
        (MathUtils.lerp (vz (treePosition item)) (vz (oScatterPosition item)) sm).

(** The arguments of [dummy.rotation.set]. *)
Definition ornamentRotation (targetMorph time : R) (item : OrnamentData)
    : Vector3 :=
  let sm := smoothMorph targetMorph item in
  mkVec (vx (rotation item) + sm * 5 + time * 0.5)
        (vy (rotation item) + sm * 5 + time * 0.3)
        (vz (rotation item) + time * 0.2).

End ParticleScene.

(** ** App.tsx: the events of a session *)

Module Session.

Import Handlers HandTracker Smoothing.

(** What can happen to the state of [App]: an animation frame of the
    smoothing loop, the overlay's [onOpen], a click on the manual toggle, and
    a camera frame processed by the hand tracker.  [FrameWith started mode]
    is a frame handled by a callback that closed over [started] and [mode];
    the frames of the program are [FrameWith true ASSEMBLED], the tracker
    holding [mountedCallback].  [Frame] is a frame handled by the prop of the
    current render; it is kept so that what is proved of every run also covers
    a tracker that follows the prop. *)
Inductive Event : Type :=
| Tick
| Open
| Toggle
| Frame (results : Results)
| FrameWith (started : bool) (mode : TreeState) (results : Results).

(** [None] when the camera frame throws. *)
Definition step (e : Event) (s : AppState) : option AppState :=
  match e with
  | Tick => Some (loop s)
  | Open => Some (startExperience s)
  | Toggle => Some (toggleState s)
  | Frame results => predictWebcam onHandUpdate results s
  | FrameWith started mode results =>
      predictWebcam (handleHandUpdate started mode) results s
  end.

Fixpoint run (es : list Event) (s : AppState) : option AppState :=
  match es with
  | [] => Some s
  | e :: es' => bindOpt (step e s) (run es')
  end.

(** The four numbers of the state are in [0, 1]. *)
Definition inUnit (s : AppState) : Prop :=
  0 <= morphProgress s <= 1 /\ 0 <= targetMorphRef s <= 1 /\
  0 <= handHeight s <= 1 /\ 0 <= targetHeightRef s <= 1.

(** A state that has not started and whose smoothed values are on their
    targets. *)
Definition atRest (s : AppState) : Prop :=
  hasStarted s = false /\ morphProgress s = targetMorphRef s /\
  handHeight s = targetHeightRef s.

(** The props [App] hands to [OrbitControls]. *)
Definition orbitEnabled (s : AppState) : bool := negb (handDetected s).

Definition autoRotate (s : AppState) : bool :=
  negb (handDetected s) && TreeState_eqb (treeState s) ASSEMBLED
  && hasStarted s.

End Session.

(** ** App.tsx: [CameraRig] *)

Module CameraRig.

Import Geometry.

(** [THREE.MathUtils.damp]. *)
Definition damp (x y lambda dt : R) : R :=
  ParticleScene.MathUtils.lerp x y (1 - exp (- lambda * dt)).

(** What the rig owns: [currentHeightRef] and the position of the camera. *)
Record Rig : Type := mkRig { currentHeightRef : R; cameraPosition : Vector3 }.


Definition mappedHeight (targetHeight : R) : R :=
  ParticleScene.MathUtils.lerp 8 (-6) targetHeight.

(** The [useFrame] callback, for a frame that lasted [delta]. *)
Definition useFrame (detected : bool) (targetHeight delta : R) (rig : Rig)
    : Rig :=
  if detected then
    let h := damp (currentHeightRef rig) (mappedHeight targetHeight) 2 delta in
    mkRig h (mkVec 0 h 14)
  else rig.

End CameraRig.

(** ** utils/geometry: the ornaments *)

Module Ornaments.

Import Geometry.
Import String.StringSyntax.
Delimit Scope string_scope with string.

Definition ORNAMENT_COUNT : nat := 150.

Definition getSpiralPointOnCone (t height maxRadius : R) : Vector3 :=
  let y := t * height in
  let rAtY := (1 - t) * maxRadius in
  let theta := t * PI * 15 in
  mkVec (rAtY * cos theta) (y - height / 2 - 0.5) (rAtY * sin theta).

Definition golds : list String.string :=
  ["#FFD700"%string; "#DAA520"%string; "#F7E7CE"%string].
Definition greens : list String.string :=
  ["#2E8B57"%string; "#228B22"%string; "#3CB371"%string].
Definition red : String.string := "#D6001C"%string.

(** [Math.floor] of a number that is not negative, as an array index. *)
Definition floor_index (x : R) : nat := Z.to_nat (Int_part x).

(** [palette[Math.floor(Math.random() * palette.length)]]; [None] is
    [undefined]. *)
Definition pick (palette : list String.string) : Rand (option String.string) :=
  r <- Math_random ;;
  ret (nth_error palette (floor_index (r * INR (length palette)))).

(** One element of the array that [generateOrnaments] returns: the fields
    of [OrnamentData] that [updateMesh] places an instance with, and the
    colour. *)
Record Ornament : Type := mkOrnamentOf {
  data  : ParticleScene.OrnamentData;
  color : option String.string
}.

(** The body of the [for] loop at index [i]: the element that is pushed. *)
Definition ornamentBody (i : nat) : Rand Ornament :=
  coin <- Math_random ;;
  let isBox := Num.ltb 0.6 coin in
  scatterVec <- getRandomPointInSphere (SCATTER_RADIUS * 0.8) ;;
  let t := INR i / INR ORNAMENT_COUNT in
  let treeVec := getSpiralPointOnCone t TREE_HEIGHT (TREE_RADIUS + 0.3) in
  nx <- Math_random ;;
  nz <- Math_random ;;
  let treeVec := mkVec (vx treeVec + (nx - 0.5) * 0.5) (vy treeVec)
                       (vz treeVec + (nz - 0.5) * 0.5) in
  rand <- Math_random ;;
  col <- (if Num.ltb rand 0.10 then ret (Some red)
          else if Num.ltb rand 0.40 then pick greens
          else pick golds) ;;
  rx <- Math_random ;;
  ry <- Math_random ;;
  rz <- Math_random ;;
  sc <- Math_random ;;
  ret (mkOrnamentOf
         (ParticleScene.mkOrnament i
            (if isBox then ParticleScene.box else ParticleScene.sphere)
            scatterVec treeVec
            (mkVec (rx * PI) (ry * PI) (rz * PI))
            (0.12 + sc * 0.15))
         col).

(** [for (let i = from; i < from + n; i++) ornaments.push(...)]. *)
Fixpoint ornamentLoop (n from : nat) (ornaments : list Ornament)
    : Rand (list Ornament) :=
  match n with
  | O => ret ornaments
  | S n' =>
      o <- ornamentBody from ;;
      ornamentLoop n' (S from) (ornaments ++ [o])
  end.

Definition generateOrnaments : Rand (list Ornament) :=
  ornamentLoop ORNAMENT_COUNT 0 [].

End Ornaments.

(** ** components/ParticleScene: the star and the per-frame uniforms *)

Module SceneFrames.

Import Geometry.

(** [Vector3.lerpVectors(v1, v2, alpha)]. *)
Definition lerpVectors (v1 v2 : Vector3) (alpha : R) : Vector3 :=
  mkVec (vx v1 + (vx v2 - vx v1) * alpha)
        (vy v1 + (vy v2 - vy v1) * alpha)
        (vz v1 + (vz v2 - vz v1) * alpha).

(** *** [Star] *)

Definition starTreePos : Vector3 := mkVec 0 3.8 0.
Definition starScatterPos : Vector3 := mkVec 0 10 0.

Definition starEase (morphProgress : R) : R :=
  if Num.ltb morphProgress 0.5
  then 4 * morphProgress * morphProgress * morphProgress
  else 1 - (-2 * morphProgress + 2) ^ 3 / 2.

Definition starPosition (morphProgress : R) : Vector3 :=
  lerpVectors starTreePos starScatterPos (starEase morphProgress).

Definition starRotation (morphProgress time : R) : Vector3 :=
  mkVec (cos (time * 0.5) * 0.1)
        (time * 0.8)
        (sin (time * 0.5) * 0.1 + starEase morphProgress * 0.5).

(** Vertex [i] of the star shape: [points = 5], outer radius 0.5, inner
    radius 0.25. *)
Definition starVertex (i : nat) : R * R :=
  let radius := if (i mod 2 =? 0)%nat then 0.5 else 0.25 in
  let angle := INR i / INR (5 * 2) * PI * 2 in
  (cos (angle + PI / 2 * 3) * radius, sin (angle + PI / 2 * 3) * radius).

(** *** [Foliage]: the [uMorph] uniform

    Every rendered frame moves the uniform toward the [morphProgress] prop:
    [lerp(uMorph, morphProgress, 0.05)]. *)
Definition uMorphFrame (morphProgress uMorph : R) : R :=
  ParticleScene.MathUtils.lerp uMorph morphProgress 0.05.

(** The local progress the vertex shader computes in a frame that [Foliage]
    renders with the prop [morphProgress], [uMorph] being the value of the
    uniform before the frame: [useFrame] moves the uniform, then the shader
    reads it. *)
Definition renderedLocalProgress (morphProgress uMorph aRandom : R) : R :=
  ParticleScene.localProgress (uMorphFrame morphProgress uMorph) aRandom.

Fixpoint uMorphAfter (n : nat) (morphProgress uMorph : R) : R :=
  match n with
  | O => uMorph
  | S n' => uMorphFrame morphProgress (uMorphAfter n' morphProgress uMorph)
  end.

(** *** The foliage fragment shader *)

(** [twinkle], and whether the sparkle branch is taken. *)
Definition sparkles (vSize vRandom : R) : bool :=
  Num.ltb 1.5 vSize || Num.ltb 0.8 vRandom.

Definition twinkle (uTime vSize vRandom : R) : R :=
  if sparkles vSize vRandom then
    let speed := 3.0 + vRandom * 5.0 in
    0.5 + 0.5 * sin (uTime * speed + vRandom * 100.0)
  else 1.0.

(** One channel of [finalColor], from the same channel of [baseColor] (after
    the sparkle has been added) and of [colorScatter]. *)
Definition finalChannel (base scatter vMorph : R) : R :=
  ParticleScene.mix base scatter (vMorph * 0.6).

(** The factor applied to [finalAlpha] by [// "Light" particles stay
    brighter]. *)
Definition lightAlphaFactor (uTime vSize vRandom : R) : R :=
  if Num.ltb 1.5 vSize then 0.8 + 0.2 * twinkle uTime vSize vRandom else 1.

End SceneFrames.

(** ** Concrete states and inputs used to run the definitions *)

Module Examples.

Import HandTracker.

(** Started, morph at 0 heading for 1, height at rest. *)
Definition risingApp : AppState := mkApp true ASSEMBLED 0 false 0.5 1 0.5.

(** The state right after the overlay has been opened. *)
Definition startedApp : AppState := Handlers.startExperience initialApp.

(** A hand whose 21 landmarks all sit at [(x, y)]. *)
Definition handAt (x y : R) : Hand := repeat (mkLandmark x y 0) 21.

(** Two hands half the image width apart, at 0.3 from the top. *)
Definition twoHandsApart : Results :=
  mkResults (Some [handAt 0.25 0.3; handAt 0.75 0.3]).

(** Two hands spanning the whole image width. *)
Definition twoHandsWide : Results :=
  mkResults (Some [handAt 0 0.5; handAt 1 0.5]).


(** A random source whose fourth number is 0.99 and whose other numbers
    are 0: the cone sample of the first particle lands near the apex. *)
Definition apexSource : Geometry.RandomSource :=
  Geometry.mkSource (fun n => if (n =? 3)%nat then 0.99 else 0) 0.

(** A random source that hands out 0.5 for ever. *)
Definition evenSource : Geometry.RandomSource :=
  Geometry.mkSource (fun _ => 0.5) 0.

(** A state in the middle of a morph, hands lost. *)
Definition midwayApp : AppState := mkApp true ASSEMBLED 0.3 false 0.5 0 0.5.

(** A hand whose landmarks stop before the pinky tip. *)
Definition shortHand : HandTracker.Hand :=
  repeat (HandTracker.mkLandmark 0.5 0.5 0) 10.

(** The ornament generated first ([id: 0]), placed anywhere. *)
Definition firstOrnament : ParticleScene.OrnamentData :=
  ParticleScene.mkOrnament 0 ParticleScene.sphere
    (Geometry.mkVec 3 4 0) (Geometry.mkVec 1 0 0) (Geometry.mkVec 0 0 0) 0.2.

End Examples.

(** * Properties *)

(** ** Facts about the numeric helpers *)

Module NumFacts.

Lemma ltb_true (a b : R) : a < b -> Num.ltb a b = true.
Proof.
  intros H; unfold Num.ltb.
  destruct (Rlt_dec a b); [reflexivity | contradiction].
Qed.

Lemma ltb_false (a b : R) : ~ a < b -> Num.ltb a b = false.
Proof.
  intros H; unfold Num.ltb.
  destruct (Rlt_dec a b); [contradiction | reflexivity].
Qed.

(** Whole numbers written with a decimal point, as the source has them. *)
Ltac whole :=
  try replace 0.0 with 0 by lra; try replace 1.0 with 1 by lra;
  try replace 2.0 with 2 by lra; try replace 4.0 with 4 by lra;
  try replace 7.0 with 7 by lra; try replace 10.0 with 10 by lra;
  try replace 12.0 with 12 by lra; try replace (-2.0) with (-2) by lra.

Lemma ltb_reflect (a b : R) : reflect (a < b) (Num.ltb a b).
Proof. unfold Num.ltb; destruct (Rlt_dec a b); constructor; assumption. Qed.

Ltac minmax x lo hi :=
  unfold Num.clamp, Rmin, Rmax;
  destruct (Rle_dec x lo); destruct (Rle_dec _ hi); lra.

Lemma clamp_range (x lo hi : R) : lo <= hi -> lo <= Num.clamp x lo hi <= hi.
Proof. intros H; minmax x lo hi. Qed.

Lemma clamp_id (x lo hi : R) : lo <= x <= hi -> Num.clamp x lo hi = x.
Proof. intros H; minmax x lo hi. Qed.

Lemma clamp_low (x lo hi : R) : lo <= hi -> x <= lo -> Num.clamp x lo hi = lo.
Proof. intros H1 H2; minmax x lo hi. Qed.

Lemma clamp_high (x lo hi : R) : lo <= hi -> hi <= x -> Num.clamp x lo hi = hi.
Proof. intros H1 H2; minmax x lo hi. Qed.

(** The cube root of a number of [0, 1) is in [0, 1). *)
Lemma cbrt_unit (x : R) : 0 <= x < 1 -> 0 <= Num.cbrt x < 1.
Proof.
  intros [H0 H1]; unfold Num.cbrt.
  destruct (Req_dec_T x 0) as [E | N]; [lra |].
  destruct (Rlt_dec 0 x) as [P | NP]; [| lra].
  split; [left; apply exp_pos |].
  rewrite <- exp_0; apply exp_increasing.
  assert (L : ln x < 0) by (rewrite <- ln_1; apply ln_increasing; lra).
  lra.
Qed.

Lemma cbrt_cube (x : R) : Num.cbrt x ^ 3 = x.
Proof.
  assert (E3 : forall y, 0 < y -> exp (ln y / 3) ^ 3 = y).
  { intros y Hy. simpl. rewrite Rmult_1_r, <- !exp_plus.
    replace (ln y / 3 + (ln y / 3 + ln y / 3)) with (ln y) by lra.
    apply exp_ln; assumption. }
  unfold Num.cbrt.
  destruct (Req_dec_T x 0) as [E | N]; [subst; lra |].
  destruct (Rlt_dec 0 x) as [P | NP]; [apply E3; assumption |].
  replace ((- exp (ln (- x) / 3)) ^ 3) with (- exp (ln (- x) / 3) ^ 3) by ring.
  rewrite E3 by lra. lra.
Qed.

End NumFacts.

(** ** The smoothing loop *)

Module SmoothingFacts.

Import Smoothing NumFacts.

Section Approach.

Variable k : R.
Hypothesis k_rate : 0 < k < 1.
Variable target : R.

Lemma approach_snap (c : R) :
  Rabs (target - c) < 0.001 -> approach k target c = target.
Proof. intros H; unfold approach; cbv zeta; rewrite (ltb_true _ _ H); reflexivity. Qed.

Lemma approach_step (c : R) :
  ~ Rabs (target - c) < 0.001 -> approach k target c = c + (target - c) * k.
Proof. intros H; unfold approach; cbv zeta; rewrite (ltb_false _ _ H); reflexivity. Qed.

Lemma approach_cases (c : R) :
  (Rabs (target - c) < 0.001 /\ approach k target c = target) \/
  (0.001 <= Rabs (target - c) /\ approach k target c = c + (target - c) * k).
Proof.
  destruct (Rlt_dec (Rabs (target - c)) 0.001) as [H | H].
  - left; split; [assumption | apply approach_snap; assumption].
  - right; split; [lra | apply approach_step; assumption].
Qed.

Lemma approach_fixed : approach k target target = target.
Proof.
  apply approach_snap. replace (target - target) with 0 by lra.
  rewrite Rabs_R0; lra.
Qed.

(** From below: the value rises and stays at or under the target. *)
Lemma approach_from_below (c : R) :
  c <= target -> c <= approach k target c <= target.
Proof.
  intros H; destruct (approach_cases c) as [[_ E] | [_ E]]; rewrite E; nra.
Qed.

(** From above: the value falls and stays at or over the target. *)
Lemma approach_from_above (c : R) :
  target <= c -> target <= approach k target c <= c.
Proof.
  intros H; destruct (approach_cases c) as [[_ E] | [_ E]]; rewrite E; nra.
Qed.

(** The distance to the target shrinks by the factor [1 - k] at least. *)
Lemma approach_contracts (c : R) :
  Rabs (target - approach k target c) <= (1 - k) * Rabs (target - c).
Proof.
  destruct (approach_cases c) as [[_ E] | [_ E]]; rewrite E.
  - replace (target - target) with 0 by lra. rewrite Rabs_R0.
    apply Rmult_le_pos; [lra | apply Rabs_pos].
  - replace (target - (c + (target - c) * k)) with ((1 - k) * (target - c))
      by ring.
    rewrite Rabs_mult, (Rabs_pos_eq (1 - k)) by lra. lra.
Qed.

Lemma iterate_from_below (n : nat) (c : R) :
  c <= target -> iterate k target n c <= iterate k target (S n) c <= target.
Proof.
  intros H. assert (B : iterate k target n c <= target).
  { induction n as [| n IH]; simpl; [assumption |].
    apply approach_from_below; assumption. }
  simpl; apply approach_from_below; assumption.
Qed.

Lemma iterate_from_above (n : nat) (c : R) :
  target <= c -> target <= iterate k target (S n) c <= iterate k target n c.
Proof.
  intros H. assert (B : target <= iterate k target n c).
  { induction n as [| n IH]; simpl; [assumption |].
    apply approach_from_above; assumption. }
  simpl; apply approach_from_above; assumption.
Qed.

Lemma iterate_contracts (n : nat) (c : R) :
  Rabs (target - iterate k target n c) <= (1 - k) ^ n * Rabs (target - c).
Proof.
  induction n as [| n IH]; simpl; [lra |].
  eapply Rle_trans; [apply approach_contracts |].
  rewrite Rmult_assoc; apply Rmult_le_compat_l; [lra | assumption].
Qed.

(** Once the target is reached it is kept. *)
Lemma iterate_stays (n m : nat) (c : R) :
  iterate k target n c = target -> (n <= m)%nat -> iterate k target m c = target.
Proof.
  intros E L; induction L as [| m L IH]; [assumption |].
  simpl; rewrite IH; apply approach_fixed.
Qed.

(** When [(1 - k) ^ n] times the first distance is under the threshold, tick
    [n + 1] snaps, and every later value is the target itself. *)
Lemma iterate_reaches (n m : nat) (c : R) :
  (1 - k) ^ n * Rabs (target - c) < 0.001 -> (n < m)%nat ->
  iterate k target m c = target.
Proof.
  intros H L. apply (iterate_stays (S n)); [| lia].
  simpl; apply approach_snap.
  eapply Rle_lt_trans; [apply iterate_contracts | assumption].
Qed.

(** As long as no tick has snapped, the distance is the first distance times
    [(1 - k) ^ n] exactly. *)
Lemma iterate_closed_form (n : nat) (c : R) :
  (forall j : nat, (j < n)%nat -> 0.001 <= (1 - k) ^ j * Rabs (target - c)) ->
  target - iterate k target n c = (1 - k) ^ n * (target - c).
Proof.
  induction n as [| n IH]; intros H; simpl; [lra |].
  assert (IHn := IH (fun j L => H j (Nat.lt_lt_succ_r _ _ L))).
  rewrite approach_step.
  - replace (target - (iterate k target n c
                       + (target - iterate k target n c) * k))
      with ((1 - k) * (target - iterate k target n c)) by ring.
    rewrite IHn; ring.
  - rewrite IHn, Rabs_mult, (Rabs_pos_eq ((1 - k) ^ n)).
    + specialize (H n (Nat.lt_succ_diag_r n)); lra.
    + apply pow_le; lra.
Qed.

(** Some number of ticks is enough, whatever the first distance. *)
Lemma iterate_converges (c : R) :
  exists N : nat, forall n : nat, (N <= n)%nat -> iterate k target n c = target.
Proof.
  destruct (Req_dec_T (target - c) 0) as [Z | NZ].
  - exists 1%nat; intros n L. apply (iterate_reaches 0); [| lia].
    rewrite Z, Rabs_R0; simpl; lra.
  - assert (D : 0 < Rabs (target - c)) by (apply Rabs_pos_lt; assumption).
    destruct (pow_lt_1_zero (1 - k)) with (y := 0.001 / Rabs (target - c))
      as [N HN].
    + rewrite Rabs_pos_eq; lra.
    + apply Rdiv_lt_0_compat; lra.
    + exists (S N); intros n L. apply (iterate_reaches N); [| lia].
      specialize (HN N (Nat.le_refl N)).
      rewrite Rabs_pos_eq in HN by (apply pow_le; lra).
      apply (Rmult_lt_compat_r _ _ _ D) in HN.
      unfold Rdiv in HN; rewrite Rmult_assoc, Rinv_l, Rmult_1_r in HN; lra.
Qed.

End Approach.

(** The loop on the whole state is the iteration on each cell, and it leaves
    everything but the two smoothed cells alone. *)
Lemma ticks_frame (n : nat) (s : AppState) :
  hasStarted (ticks n s) = hasStarted s /\
  treeState (ticks n s) = treeState s /\
  handDetected (ticks n s) = handDetected s /\
  targetMorphRef (ticks n s) = targetMorphRef s /\
  targetHeightRef (ticks n s) = targetHeightRef s.
Proof. induction n as [| n IH]; simpl; [tauto | exact IH]. Qed.

Lemma ticks_morph (n : nat) (s : AppState) :
  morphProgress (ticks n s)
  = iterate 0.08 (targetMorphRef s) n (morphProgress s).
Proof.
  induction n as [| n IH]; simpl; [reflexivity |].
  unfold morphUpdater; rewrite IH.
  destruct (ticks_frame n s) as (_ & _ & _ & E & _); rewrite E; reflexivity.
Qed.

Lemma ticks_height (n : nat) (s : AppState) :
  handHeight (ticks n s)
  = iterate 0.05 (targetHeightRef s) n (handHeight s).
Proof.
  induction n as [| n IH]; simpl; [reflexivity |].
  unfold heightUpdater; rewrite IH.
  destruct (ticks_frame n s) as (_ & _ & _ & _ & E); rewrite E; reflexivity.
Qed.

End SmoothingFacts.

Module SmoothingClaims.

Import Smoothing NumFacts SmoothingFacts Examples.

Lemma pow_antitone (r : R) (n m : nat) :
  0 <= r <= 1 -> (n <= m)%nat -> r ^ m <= r ^ n.
Proof.
  intros Hr L; induction L as [| m L IH]; [lra |].
  simpl. assert (P : 0 <= r ^ m) by (apply pow_le; lra). nra.
Qed.

(** With target 1 and start 0 the morph loop has not snapped before tick 83
    and snaps at tick 84. *)
Lemma morph_unit_no_snap (j : nat) :
  (j < 83)%nat -> 0.001 <= (1 - 0.08) ^ j * Rabs (1 - 0).
Proof.
  intros L. replace (1 - 0) with 1 by lra. rewrite Rabs_R1, Rmult_1_r.
  apply Rle_trans with ((1 - 0.08) ^ 82); [lra |].
  apply pow_antitone; [lra | lia].
Qed.

Lemma morph_unit_closed (N : nat) :
  (N <= 83)%nat -> iterate 0.08 1 N 0 = 1 - (1 - 0.08) ^ N.
Proof.
  intros L.
  assert (E : 1 - iterate 0.08 1 N 0 = (1 - 0.08) ^ N * (1 - 0)).
  { apply iterate_closed_form; [lra |].
    intros j Lj; apply morph_unit_no_snap; lia. }
  lra.
Qed.

Lemma morph_unit_snapped (N : nat) :
  (83 < N)%nat -> iterate 0.08 1 N 0 = 1.
Proof.
  intros L. apply (iterate_reaches 0.08) with (n := 83%nat); [lra | | lia].
  replace (1 - 0) with 1 by lra. rewrite Rabs_R1. lra.
Qed.

(** C1. One tick of the smoothing loop sets a smoothed value to its target
    exactly when the two are less than 0.001 apart, and otherwise moves it by
    the fraction 0.08 (morph) or 0.05 (height) of the remaining difference.
    Consequently, from morph 0 with the target held at 1, the morph value
    after [N] ticks is [1 - (1 - 0.08)^N] for every [N <= 83]; tick 84 snaps,
    so from then on it is 1 exactly; for every [N] it is within 0.001 of the
    closed form. *)
Theorem smoothing_tick_closed_form (s : AppState) (N : nat) :
  (Rabs (targetMorphRef s - morphProgress s) < 0.001 ->
     morphProgress (loop s) = targetMorphRef s) /\
  (~ Rabs (targetMorphRef s - morphProgress s) < 0.001 ->
     morphProgress (loop s)
     = morphProgress s + (targetMorphRef s - morphProgress s) * 0.08) /\
  (Rabs (targetHeightRef s - handHeight s) < 0.001 ->
     handHeight (loop s) = targetHeightRef s) /\
  (~ Rabs (targetHeightRef s - handHeight s) < 0.001 ->
     handHeight (loop s)
     = handHeight s + (targetHeightRef s - handHeight s) * 0.05) /\
  (morphProgress s = 0 -> targetMorphRef s = 1 ->
     ((N <= 83)%nat -> morphProgress (ticks N s) = 1 - (1 - 0.08) ^ N) /\
     ((83 < N)%nat -> morphProgress (ticks N s) = 1) /\
     Rabs (morphProgress (ticks N s) - (1 - (1 - 0.08) ^ N)) < 0.001).
Proof.
  repeat split.
  - apply approach_snap.
  - apply approach_step.
  - apply approach_snap.
  - apply approach_step.
  - intros L; rewrite ticks_morph, H, H0; apply morph_unit_closed; assumption.
  - intros L; rewrite ticks_morph, H, H0; apply morph_unit_snapped; assumption.
  - rewrite ticks_morph, H, H0.
    destruct (le_lt_dec N 83) as [L | L].
    + rewrite (morph_unit_closed N L).
      replace (1 - (1 - 0.08) ^ N - (1 - (1 - 0.08) ^ N)) with 0 by lra.
      rewrite Rabs_R0; lra.
    + rewrite (morph_unit_snapped N L).
      replace (1 - (1 - (1 - 0.08) ^ N)) with ((1 - 0.08) ^ N) by lra.
      rewrite Rabs_pos_eq by (apply pow_le; lra).
      apply Rle_lt_trans with ((1 - 0.08) ^ 83); [| lra].
      apply pow_antitone; [lra | lia].
Qed.

Lemma smoothing_tick_closed_form_witness :
  morphProgress (loop risingApp) = 0 + (1 - 0) * 0.08 /\
  handHeight (loop risingApp) = 0.5 /\
  morphProgress (ticks 2 risingApp) = 1 - (1 - 0.08) ^ 2.
Proof.
  destruct (smoothing_tick_closed_form risingApp 2) as (_ & M & H & _ & C).
  split; [| split].
  - apply M. simpl. replace (1 - 0) with 1 by lra. rewrite Rabs_R1. lra.
  - apply H. simpl. replace (0.5 - 0.5) with 0 by lra. rewrite Rabs_R0. lra.
  - apply (C eq_refl eq_refl). lia.
Defined.

(** C9. With the target held fixed, every tick moves the smoothed value
    toward the target and never past it: from below the values rise and stay
    at or under the target, from above they fall and stay at or over it.  A
    finite number of ticks brings the value onto the target, where it stays;
    when the first distance is at most 1 (values of [0, 1]), 84 ticks are
    enough for the morph value and 136 for the height. *)
Theorem smoothing_monotone_bounded (s : AppState) (n : nat) :
  (morphProgress s <= targetMorphRef s ->
     morphProgress (ticks n s) <= morphProgress (ticks (S n) s)
       <= targetMorphRef s) /\
  (targetMorphRef s <= morphProgress s ->
     targetMorphRef s <= morphProgress (ticks (S n) s)
       <= morphProgress (ticks n s)) /\
  (handHeight s <= targetHeightRef s ->
     handHeight (ticks n s) <= handHeight (ticks (S n) s)
       <= targetHeightRef s) /\
  (targetHeightRef s <= handHeight s ->
     targetHeightRef s <= handHeight (ticks (S n) s)
       <= handHeight (ticks n s)) /\
  (exists N : nat, forall m : nat, (N <= m)%nat ->
     morphProgress (ticks m s) = targetMorphRef s /\
     handHeight (ticks m s) = targetHeightRef s) /\
  (Rabs (targetMorphRef s - morphProgress s) <= 1 -> (84 <= n)%nat ->
     morphProgress (ticks n s) = targetMorphRef s) /\
  (Rabs (targetHeightRef s - handHeight s) <= 1 -> (136 <= n)%nat ->
     handHeight (ticks n s) = targetHeightRef s).
Proof.
  rewrite !ticks_morph, !ticks_height.
  split; [| split; [| split; [| split; [| split; [| split]]]]].
  - apply iterate_from_below; lra.
  - apply iterate_from_above; lra.
  - apply iterate_from_below; lra.
  - apply iterate_from_above; lra.
  - destruct (iterate_converges 0.08 ltac:(lra) (targetMorphRef s)
                (morphProgress s)) as [N1 H1].
    destruct (iterate_converges 0.05 ltac:(lra) (targetHeightRef s)
                (handHeight s)) as [N2 H2].
    exists (N1 + N2)%nat; intros m L.
    rewrite ticks_morph, ticks_height; split; [apply H1 | apply H2]; lia.
  - intros D L. apply (iterate_reaches 0.08) with (n := 83%nat); [lra | | lia].
    assert (P : 0 <= Rabs (targetMorphRef s - morphProgress s))
      by apply Rabs_pos.
    assert (Q : (1 - 0.08) ^ 83 < 0.001) by lra.
    assert (Q0 : 0 < (1 - 0.08) ^ 83) by (apply pow_lt; lra).
    nra.
  - intros D L. apply (iterate_reaches 0.05) with (n := 135%nat); [lra | | lia].
    assert (P : 0 <= Rabs (targetHeightRef s - handHeight s))
      by apply Rabs_pos.
    assert (Q : (1 - 0.05) ^ 135 < 0.001) by lra.
    assert (Q0 : 0 < (1 - 0.05) ^ 135) by (apply pow_lt; lra).
    nra.
Qed.

Lemma smoothing_monotone_bounded_witness :
  (morphProgress (ticks 3 risingApp) <= morphProgress (ticks 4 risingApp) <= 1)
  /\ morphProgress (ticks 84 risingApp) = 1
  /\ handHeight (ticks 136 risingApp) = 0.5.
Proof.
  split; [| split].
  - apply (smoothing_monotone_bounded risingApp 3). simpl; lra.
  - apply (smoothing_monotone_bounded risingApp 84); [| lia].
    simpl. replace (1 - 0) with 1 by lra. rewrite Rabs_R1. lra.
  - apply (smoothing_monotone_bounded risingApp 136); [| lia].
    simpl. replace (0.5 - 0.5) with 0 by lra. rewrite Rabs_R0. lra.
Defined.

End SmoothingClaims.

(** ** The gesture mapper *)

Module HandTrackerFacts.

Import HandTracker NumFacts Examples.

Lemma at_index_some (h : Hand) (i : nat) :
  (i < length h)%nat -> exists l : Landmark, at_index h i = Some l.
Proof.
  intros L; unfold at_index.
  destruct (nth_error h i) as [l |] eqn:E; [exists l; reflexivity |].
  apply nth_error_None in E; lia.
Qed.

Lemma delivered_two_hands (h0 h1 : Hand) (a b : Landmark) :
  at_index h0 8 = Some a -> at_index h1 8 = Some b ->
  delivered (mkResults (Some [h0; h1]))
  = Some (mkReading (Num.clamp (euclidean a b) 0 1.2)
                    (Num.clamp (1 - (ly a + ly b) / 2) 0 1) true).
Proof.
  intros Ea Eb; unfold delivered, interaction; cbn [landmarks].
  rewrite Ea, Eb; cbn [bindOpt distance height detected].
  unfold Num.clamp, euclidean.
  replace ((lx a - lx b) ^ 2 + (ly a - ly b) ^ 2)
    with ((lx a - lx b) * (lx a - lx b) + (ly a - ly b) * (ly a - ly b))
    by ring.
  replace 1.0 with 1 by lra. reflexivity.
Qed.

Lemma delivered_one_hand (h : Hand) (thumb pinky index : Landmark) :
  at_index h 4 = Some thumb -> at_index h 20 = Some pinky ->
  at_index h 8 = Some index ->
  delivered (mkResults (Some [h]))
  = Some (mkReading (Num.clamp (2 * euclidean thumb pinky) 0 1.2)
                    (Num.clamp (1 - ly index) 0 1) true).
Proof.
  intros Et Ep Ei; unfold delivered, interaction; cbn [landmarks].
  rewrite Et, Ep, Ei; cbn [bindOpt distance height detected].
  unfold Num.clamp, euclidean.
  replace ((lx thumb - lx pinky) ^ 2 + (ly thumb - ly pinky) ^ 2)
    with ((lx thumb - lx pinky) * (lx thumb - lx pinky)
          + (ly thumb - ly pinky) * (ly thumb - ly pinky)) by ring.
  replace 1.0 with 1 by lra. replace 2.0 with 2 by lra.
  rewrite (Rmult_comm (sqrt _) 2). reflexivity.
Qed.


Lemma delivered_range (results : Results) (r : Reading) :
  delivered results = Some r ->
  0 <= distance r <= 1.2 /\ 0 <= height r <= 1.
Proof.
  unfold delivered; destruct (interaction results) as [q |]; simpl;
    [| discriminate].
  intros E; injection E as <-; simpl.
  split; apply (clamp_range _ 0); lra.
Qed.

(** With 21 landmarks a hand, no read fails. *)
Lemma delivered_total (results : Results) :
  (forall hands h, landmarks results = Some hands -> In h hands ->
     length h = 21%nat) ->
  exists r : Reading, delivered results = Some r.
Proof.
  intros W; unfold delivered.
  assert (T : exists q, interaction results = Some q).
  { unfold interaction.
    destruct (landmarks results) as [[| h0 [| h1 [| h2 t]]] |] eqn:E;
      try (eexists; reflexivity).
    - assert (L : length h0 = 21%nat) by (apply (W _ _ eq_refl); simpl; auto).
      destruct (at_index_some h0 4) as [a Ea]; [lia |].
      destruct (at_index_some h0 20) as [b Eb]; [lia |].
      destruct (at_index_some h0 8) as [c Ec]; [lia |].
      rewrite Ea, Eb, Ec; cbn [bindOpt]; eexists; reflexivity.
    - assert (L0 : length h0 = 21%nat) by (apply (W _ _ eq_refl); simpl; auto).
      assert (L1 : length h1 = 21%nat) by (apply (W _ _ eq_refl); simpl; auto).
      destruct (at_index_some h0 8) as [a Ea]; [lia |].
      destruct (at_index_some h1 8) as [b Eb]; [lia |].
      rewrite Ea, Eb; cbn [bindOpt]; eexists; reflexivity. }
  destruct T as [q ->]; simpl; eexists; reflexivity.
Qed.

Lemma euclidean_same (a b : Landmark) :
  lx a = lx b -> ly a = ly b -> euclidean a b = 0.
Proof.
  intros Ex Ey; unfold euclidean; rewrite Ex, Ey.
  replace ((lx b - lx b) ^ 2 + (ly b - ly b) ^ 2) with 0 by ring.
  apply sqrt_0.
Qed.

Lemma handAt_index (x y : R) (i : nat) :
  (i < 21)%nat -> at_index (handAt x y) i = Some (mkLandmark x y 0).
Proof.
  intros L; unfold at_index, handAt.
  do 21 (destruct i as [| i]; [reflexivity |]); lia.
Qed.

(** C3. The reading handed to [onHandUpdate]: with two hands its spread is
    the image-plane Euclidean distance of the two index fingertips (landmark
    8) and its height is 1 minus the mean of their [y]; with one hand its
    spread is twice the distance of thumb tip (4) and pinky tip (20) and its
    height is 1 minus the [y] of the index fingertip; both are delivered
    clamped, the spread to [0, 1.2] and the height to [0, 1].  Two hands at the
    same place give spread 0.  For hands of 21 landmarks a reading is always
    delivered. *)
Theorem gesture_mapper_reading (results : Results) :
  (forall h0 h1 a b,
     landmarks results = Some [h0; h1] ->
     at_index h0 8 = Some a -> at_index h1 8 = Some b ->
     delivered results
     = Some (mkReading (Num.clamp (euclidean a b) 0 1.2)
                       (Num.clamp (1 - (ly a + ly b) / 2) 0 1) true)
     /\ (lx a = lx b -> ly a = ly b ->
         exists r, delivered results = Some r /\ distance r = 0)) /\
  (forall h thumb pinky index,
     landmarks results = Some [h] ->
     at_index h 4 = Some thumb -> at_index h 20 = Some pinky ->
     at_index h 8 = Some index ->
     delivered results
     = Some (mkReading (Num.clamp (2 * euclidean thumb pinky) 0 1.2)
                       (Num.clamp (1 - ly index) 0 1) true)) /\
  (forall r, delivered results = Some r ->
     0 <= distance r <= 1.2 /\ 0 <= height r <= 1) /\
  ((forall hands h, landmarks results = Some hands -> In h hands ->
      length h = 21%nat) ->
   exists r, delivered results = Some r).
Proof.
  split; [| split; [| split]].
  - intros h0 h1 a b E Ea Eb.
    destruct results as [lm]; cbn [landmarks] in E; subst lm.
    rewrite (delivered_two_hands h0 h1 a b Ea Eb); split; [reflexivity |].
    intros Ex Ey; eexists; split; [reflexivity |]; simpl.
    rewrite (euclidean_same a b Ex Ey). apply clamp_id; lra.
  - intros h t p i E Et Ep Ei.
    destruct results as [lm]; cbn [landmarks] in E; subst lm.
    apply delivered_one_hand; assumption.
  - apply delivered_range.
  - apply delivered_total.
Qed.

Lemma gesture_mapper_reading_witness :
  delivered twoHandsApart
  = Some (mkReading
            (Num.clamp (euclidean (mkLandmark 0.25 0.3 0) (mkLandmark 0.75 0.3 0))
                       0 1.2)
            (Num.clamp (1 - (0.3 + 0.3) / 2) 0 1) true)
  /\ exists r, delivered twoHandsApart = Some r.
Proof.
  destruct (gesture_mapper_reading twoHandsApart) as (T & _ & _ & W).
  split.
  - apply (T (handAt 0.25 0.3) (handAt 0.75 0.3)
             (mkLandmark 0.25 0.3 0) (mkLandmark 0.75 0.3 0) eq_refl);
      reflexivity.
  - apply W. intros hands h E; injection E as <-.
    intros [<- | [<- | []]]; reflexivity.
Defined.

End HandTrackerFacts.

(** ** The gesture handler of [App] *)

Module HandlerFacts.

Import Handlers HandTracker NumFacts HandTrackerFacts Examples.

Lemma handle_not_started (mode : TreeState) (s : AppState) (d h : R)
    (det : bool) :
  handleHandUpdate false mode s d h det = s.
Proof. reflexivity. Qed.

Lemma handle_detected (mode : TreeState) (s : AppState) (d h : R) :
  handleHandUpdate true mode s d h true
  = mkApp (hasStarted s) (modeAfter (Num.clamp d 0 1) (treeState s))
          (morphProgress s) true (handHeight s) (Num.clamp d 0 1) h.
Proof. reflexivity. Qed.

Lemma handle_lost (mode : TreeState) (s : AppState) (d h : R) :
  handleHandUpdate true mode s d h false
  = mkApp (hasStarted s) (treeState s) (morphProgress s) false (handHeight s)
          (match mode with ASSEMBLED => 0 | SCATTERED => 1 end)
          (targetHeightRef s).
Proof. destruct mode; reflexivity. Qed.

(** The callback of the current render is the handler closed over the
    current values. *)
Lemma onHandUpdate_started (s : AppState) (d h : R) (det : bool) :
  hasStarted s = true ->
  onHandUpdate s d h det = handleHandUpdate true (treeState s) s d h det.
Proof. intros E; unfold onHandUpdate; rewrite E; reflexivity. Qed.

Lemma modeAfter_cases (v : R) (old : TreeState) :
  (0.6 < v /\ modeAfter v old = SCATTERED) \/
  (v < 0.4 /\ modeAfter v old = ASSEMBLED) \/
  (0.4 <= v <= 0.6 /\ modeAfter v old = old).
Proof.
  unfold modeAfter.
  destruct (ltb_reflect 0.6 v) as [H | H]; [left; split; [lra | reflexivity] |].
  destruct (ltb_reflect v 0.4) as [L | L]; right;
    [left; split; [lra | reflexivity] | right; split; [lra | reflexivity]].
Qed.

Lemma euclidean_level (a b : Landmark) :
  ly a = ly b -> euclidean a b = Rabs (lx a - lx b).
Proof.
  intros E; unfold euclidean; rewrite E.
  replace ((lx a - lx b) ^ 2 + (ly b - ly b) ^ 2) with (Rsqr (lx a - lx b))
    by (unfold Rsqr; ring).
  apply sqrt_Rsqr_abs.
Qed.


(** The frame with two hands a whole width apart delivers spread 1. *)
Lemma delivered_twoHandsWide :
  delivered twoHandsWide = Some (mkReading 1 0.5 true).
Proof.
  unfold twoHandsWide.
  rewrite (delivered_two_hands _ _ (mkLandmark 0 0.5 0) (mkLandmark 1 0.5 0))
    by (apply handAt_index; lia).
  rewrite euclidean_level by reflexivity; cbn [lx ly].
  rewrite Rabs_left by lra.
  rewrite !clamp_id by lra. do 2 f_equal; lra.
Qed.

End HandlerFacts.

Module HandlerClaims.

Import Handlers HandTracker NumFacts HandTrackerFacts HandlerFacts Examples.
Import Smoothing SmoothingFacts.

(** C10. While [hasStarted] is false a gesture reading changes nothing: a
    handler created with [hasStarted = false] returns the state it is given,
    whatever the reading; so does the callback of a render whose state has
    [hasStarted = false], which leaves the hand-detected flag, both targets
    and the discrete mode as they are. *)
Theorem reading_ignored_before_start (mode : TreeState) (s : AppState)
    (d h : R) (det : bool) :
  handleHandUpdate false mode s d h det = s /\
  (hasStarted s = false ->
   onHandUpdate s d h det = s /\
   handDetected (onHandUpdate s d h det) = handDetected s /\
   targetMorphRef (onHandUpdate s d h det) = targetMorphRef s /\
   targetHeightRef (onHandUpdate s d h det) = targetHeightRef s /\
   treeState (onHandUpdate s d h det) = treeState s).
Proof.
  split; [apply handle_not_started |].
  intros E.
  assert (I : onHandUpdate s d h det = s)
    by (unfold onHandUpdate; rewrite E; apply handle_not_started).
  rewrite I; repeat split.
Qed.

Lemma reading_ignored_before_start_witness :
  onHandUpdate initialApp 1 0.9 true = initialApp.
Proof.
  apply (reading_ignored_before_start ASSEMBLED initialApp 1 0.9 true).
  reflexivity.
Defined.




(** Counterexample to C6 as stated: right after the start, with the smoothed
    morph value at 0, one frame with the hands a whole width apart flips the
    mode to Scattered; the smoothed value is still 0, not over 0.6. *)
Lemma mode_flips_while_smoothed_value_is_zero :
  exists s1 : AppState,
    predictWebcam onHandUpdate twoHandsWide startedApp = Some s1 /\
    treeState startedApp = ASSEMBLED /\
    treeState s1 = SCATTERED /\
    morphProgress startedApp = 0 /\
    morphProgress s1 = 0 /\
    ~ 0.6 < morphProgress s1.
Proof.
  assert (M : modeAfter (Num.clamp 1 0 1) ASSEMBLED = SCATTERED).
  { rewrite clamp_id by lra.
    destruct (modeAfter_cases 1 ASSEMBLED) as [[_ E] | [[H _] | [H _]]];
      [exact E | lra | lra]. }
  exists (mkApp true SCATTERED 0 true 0.5 1 0.5).
  split; [| split; [| split; [| split; [| split]]]].
  - unfold predictWebcam; rewrite delivered_twoHandsWide.
    cbn [bindOpt distance height detected].
    rewrite onHandUpdate_started by reflexivity.
    rewrite handle_detected.
    cbn [hasStarted treeState startedApp startExperience initialApp
         morphProgress handHeight].
    rewrite M, clamp_id by lra. reflexivity.
  - reflexivity.
  - reflexivity.
  - reflexivity.
  - reflexivity.
  - cbn [morphProgress]; lra.
Qed.

(** C6, amended. The thresholds are applied to the spread of a detected
    reading clamped to [0, 1], the value that becomes the morph target, not to
    the smoothed morph value: after the start such a reading sets the mode to
    Scattered when that value is over 0.6, to Assembled when it is under 0.4,
    and leaves the mode unchanged for every value of [0.4, 0.6].  The smoothed
    value plays no part: the result is the same for every smoothed value, and
    the smoothing ticks never change the mode. *)
Theorem mode_hysteresis_on_target (mode : TreeState) (s : AppState)
    (d h m : R) (n : nat) :
  let v := Num.clamp d 0 1 in
  let s' := handleHandUpdate true mode s d h true in
  targetMorphRef s' = v /\
  (0.6 < v -> treeState s' = SCATTERED) /\
  (v < 0.4 -> treeState s' = ASSEMBLED) /\
  (0.4 <= v <= 0.6 -> treeState s' = treeState s) /\
  treeState
    (handleHandUpdate true mode
       (mkApp (hasStarted s) (treeState s) m (handDetected s) (handHeight s)
              (targetMorphRef s) (targetHeightRef s)) d h true)
  = treeState s' /\
  treeState (ticks n s) = treeState s.
Proof.
  intros v s'; subst s'.
  rewrite !handle_detected.
  cbn [targetMorphRef treeState]; fold v.
  destruct (modeAfter_cases v (treeState s)) as [[H ->] | [[H ->] | [H ->]]];
    (split; [reflexivity |]);
    (split; [intros; first [reflexivity | lra] |]);
    (split; [intros; first [reflexivity | lra] |]);
    (split; [intros; first [reflexivity | lra] |]);
    (split; [reflexivity | apply ticks_frame]).
Qed.

Lemma mode_hysteresis_on_target_witness :
  treeState (handleHandUpdate true ASSEMBLED startedApp 0.5 0.5 true)
  = ASSEMBLED /\
  treeState (handleHandUpdate true ASSEMBLED startedApp 1.2 0.5 true)
  = SCATTERED.
Proof.
  split.
  - apply (mode_hysteresis_on_target ASSEMBLED startedApp 0.5 0.5 0 0).
    cbv zeta; rewrite clamp_id; lra.
  - apply (mode_hysteresis_on_target ASSEMBLED startedApp 1.2 0.5 0 0).
    cbv zeta; rewrite clamp_high; lra.
Defined.

End HandlerClaims.

(** ** The blend engine *)

Module BlendFacts.

Import Geometry ParticleScene NumFacts Examples.

Lemma smoothstep_unit (e0 e1 x : R) : 0 <= smoothstep e0 e1 x <= 1.
Proof.
  unfold smoothstep; cbv zeta.
  pose proof (clamp_range ((x - e0) / (e1 - e0)) 0 1 ltac:(lra)) as [L U].
  set (t := Num.clamp _ 0 1) in *.
  assert (A : 0 <= t * t * (3 - 2 * t))
    by (apply Rmult_le_pos; [apply Rmult_le_pos |]; lra).
  assert (B : 0 <= (1 - t) * (1 - t) * (1 + 2 * t))
    by (apply Rmult_le_pos; [apply Rmult_le_pos |]; lra).
  split; [exact A |].
  replace (t * t * (3 - 2 * t)) with (1 - (1 - t) * (1 - t) * (1 + 2 * t))
    by ring.
  lra.
Qed.

Lemma localProgress_unit (m r : R) : 0 <= localProgress m r <= 1.
Proof. unfold localProgress; cbv zeta; whole; apply (clamp_range _ 0); lra. Qed.

(** The clamp after [smoothstep] changes nothing. *)
Lemma localProgress_smoothstep (m r : R) :
  localProgress m r = smoothstep 0 1 (m * 1.5 - r * 0.5).
Proof.
  unfold localProgress; cbv zeta.
  replace 0.0 with 0 by lra. replace 1.0 with 1 by lra.
  apply clamp_id, smoothstep_unit.
Qed.

Lemma mix3_lerp3 (a b : Vector3) (t : R) : mix3 a b t = lerp3 a b t.
Proof. unfold mix3, lerp3, mix; f_equal; ring. Qed.

(** [THREE.MathUtils.clamp] and the inline clamp agree on [0, 1]. *)
Lemma three_clamp_unit (v : R) : MathUtils.clamp v 0 1 = Num.clamp v 0 1.
Proof.
  unfold MathUtils.clamp, Num.clamp, Rmin, Rmax.
  destruct (Rle_dec 1 v); destruct (Rle_dec v 0);
    repeat match goal with
           | |- context [Rle_dec ?a ?b] => destruct (Rle_dec a b)
           end; lra.
Qed.

(** The easing written inline in [updateMesh] is the shader's
    [easeInOutCubic]. *)
Lemma smoothMorph_ease (m : R) (item : OrnamentData) :
  smoothMorph m item = easeInOutCubic (localMorph m item).
Proof.
  unfold smoothMorph, easeInOutCubic; cbv zeta.
  replace 4.0 with 4 by lra. replace 1.0 with 1 by lra.
  replace (-2.0) with (-2) by lra. replace 2.0 with 2 by lra.
  reflexivity.
Qed.

Lemma ease_low (x : R) : x < 0.5 -> easeInOutCubic x = 4 * x * x * x.
Proof.
  intros H; unfold easeInOutCubic; rewrite (ltb_true _ _ H).
  replace 4.0 with 4 by lra. reflexivity.
Qed.

Lemma ease_high (x : R) :
  0.5 <= x -> easeInOutCubic x = 1 - (2 - 2 * x) ^ 3 / 2.
Proof.
  intros H; unfold easeInOutCubic; rewrite ltb_false by lra.
  replace (-2.0 * x + 2.0) with (2 - 2 * x) by lra.
  replace 1.0 with 1 by lra. replace 2.0 with 2 by lra. reflexivity.
Qed.

Lemma vlength_pos (v : Vector3) : 0 <= vlength v.
Proof. apply sqrt_pos. Qed.

(** Scaling a vector that is not zero by the inverse of its length gives
    a vector of length 1. *)
Lemma unit_length (v : Vector3) :
  vlength v <> 0 -> vlength (vscale v (/ vlength v)) = 1.
Proof.
  intros NZ. pose proof (vlength_pos v) as P.
  assert (S : vlength v * vlength v = vx v * vx v + vy v * vy v + vz v * vz v).
  { unfold vlength; apply sqrt_sqrt.
    pose proof (Rle_0_sqr (vx v)); pose proof (Rle_0_sqr (vy v));
      pose proof (Rle_0_sqr (vz v)); unfold Rsqr in *; lra. }
  unfold vscale; unfold vlength at 1; cbn [vx vy vz].
  replace (vx v * / vlength v * (vx v * / vlength v)
           + vy v * / vlength v * (vy v * / vlength v)
           + vz v * / vlength v * (vz v * / vlength v))
    with ((vx v * vx v + vy v * vy v + vz v * vz v)
          * (/ vlength v * / vlength v)) by ring.
  rewrite <- S.
  replace (vlength v * vlength v * (/ vlength v * / vlength v)) with 1
    by (field; assumption).
  apply sqrt_1.
Qed.

Lemma normalize_defined (v : Vector3) :
  vlength v <> 0 -> normalize v = Some (vscale v (/ vlength v)).
Proof.
  intros NZ; unfold normalize.
  destruct (Req_dec_T (vlength v) 0); [contradiction | reflexivity].
Qed.

Lemma normalize_undefined (v : Vector3) :
  vlength v = 0 -> normalize v = None.
Proof.
  intros Z; unfold normalize.
  destruct (Req_dec_T (vlength v) 0); [reflexivity | contradiction].
Qed.

(** On [x <= 1] the shader's ease is defined and is [easeInOutCubic]; beyond
    1 it is undefined. *)
Lemma shaderEase_defined (x : R) :
  x <= 1 -> shaderEase x = Some (easeInOutCubic x).
Proof.
  intros L; unfold shaderEase, easeInOutCubic, pow3.
  destruct (Num.ltb x 0.5); [reflexivity |].
  destruct (Rlt_dec (-2.0 * x + 2.0) 0) as [N | N]; [lra | reflexivity].
Qed.

Lemma shaderEase_undefined (x : R) : 1 < x -> shaderEase x = None.
Proof.
  intros L; unfold shaderEase, pow3.
  rewrite ltb_false by lra.
  destruct (Rlt_dec (-2.0 * x + 2.0) 0) as [N | N]; [reflexivity | lra].
Qed.

End BlendFacts.

Module BlendClaims.

Import Geometry ParticleScene NumFacts BlendFacts Examples.

(** Counterexample to C5 as stated: at morph 0.5 the first ornament (id 0,
    so its offset is 0 for every constant) has eased progress 0.744, the
    foliage formula with phase 0 gives more than 0.98. *)
Lemma ornament_progress_is_not_foliage_progress :
  smoothMorph 0.5 firstOrnament = 0.744 /\
  0.98 < easeInOutCubic (localProgress 0.5 (INR (id firstOrnament) * 0.002)) /\
  smoothMorph 0.5 firstOrnament
  <> easeInOutCubic (localProgress 0.5 (INR (id firstOrnament) * 0.002)).
Proof.
  assert (A : smoothMorph 0.5 firstOrnament = 0.744).
  { rewrite smoothMorph_ease. unfold localMorph; cbv zeta.
    rewrite three_clamp_unit. cbn [id firstOrnament INR].
    rewrite clamp_id by lra. rewrite ease_high by lra. lra. }
  assert (B : localProgress 0.5 (INR (id firstOrnament) * 0.002) = 0.84375).
  { rewrite localProgress_smoothstep. cbn [id firstOrnament INR].
    unfold smoothstep; cbv zeta.
    replace ((0.5 * 1.5 - 0 * 0.002 * 0.5 - 0) / (1 - 0)) with 0.75 by lra.
    rewrite clamp_id by lra. lra. }
  split; [exact A | rewrite A, B, ease_high by lra; split; lra].
Qed.

(** C5, amended. An ornament's local progress is
    [clamp(m*1.2 - id*0.002, 0, 1)]: a linear ramp of gain 1.2 keyed by the
    offset [id * 0.002], with no [smoothstep].  What it shares with the
    foliage is the easing and the blend: the eased progress is
    [easeInOutCubic] of the local progress, and the position is the lerp of
    formation and scatter position at the eased progress. *)
Theorem ornament_progress_formula (m : R) (item : OrnamentData) :
  localMorph m item = Num.clamp (m * 1.2 - INR (id item) * 0.002) 0 1 /\
  0 <= localMorph m item <= 1 /\
  smoothMorph m item = easeInOutCubic (localMorph m item) /\
  ornamentPosition m item
  = lerp3 (treePosition item) (oScatterPosition item)
          (easeInOutCubic (localMorph m item)).
Proof.
  assert (E : localMorph m item
              = Num.clamp (m * 1.2 - INR (id item) * 0.002) 0 1)
    by (unfold localMorph; cbv zeta; apply three_clamp_unit).
  split; [exact E | split; [| split]].
  - rewrite E; apply (clamp_range _ 0); lra.
  - apply smoothMorph_ease.
  - unfold ornamentPosition; cbv zeta. rewrite smoothMorph_ease.
    unfold lerp3, MathUtils.lerp; f_equal; ring.
Qed.

End BlendClaims.

(** ** The geometry generator *)

Module GeometryFacts.

Import Geometry NumFacts Examples.

(** *** Vectors *)

Lemma polar_radial (r theta y : R) :
  radial (mkVec (r * cos theta) y (r * sin theta)) = Rabs r.
Proof.
  unfold radial; cbn [vx vz].
  pose proof (sin2_cos2 theta) as T; unfold Rsqr in T.
  replace (r * cos theta * (r * cos theta) + r * sin theta * (r * sin theta))
    with (Rsqr r * (sin theta * sin theta + cos theta * cos theta))
    by (unfold Rsqr; ring).
  rewrite T, Rmult_1_r. apply sqrt_Rsqr_abs.
Qed.

Lemma spherical_length (r phi theta : R) :
  vlength (mkVec (r * sin phi * cos theta) (r * sin phi * sin theta)
                 (r * cos phi))
  = Rabs r.
Proof.
  unfold vlength; cbn [vx vy vz].
  pose proof (sin2_cos2 theta) as T; unfold Rsqr in T.
  pose proof (sin2_cos2 phi) as P; unfold Rsqr in P.
  replace (r * sin phi * cos theta * (r * sin phi * cos theta)
           + r * sin phi * sin theta * (r * sin phi * sin theta)
           + r * cos phi * (r * cos phi))
    with (Rsqr r * (sin phi * sin phi
                    * (sin theta * sin theta + cos theta * cos theta)
                    + cos phi * cos phi))
    by (unfold Rsqr; ring).
  rewrite T, Rmult_1_r, P, Rmult_1_r. apply sqrt_Rsqr_abs.
Qed.

(** *** The random source *)

Lemma advance_uniform (k : nat) (g : RandomSource) :
  uniform g -> uniform (advance k g).
Proof. intros U n; apply U. Qed.

Lemma sqrt_unit (b : R) : 0 <= b < 1 -> 0 <= sqrt b <= 1.
Proof.
  intros [L U]; split; [apply sqrt_pos |].
  rewrite <- sqrt_1; apply sqrt_le_1; lra.
Qed.

(** *** The two samplers *)

Lemma sphere_source (radius : R) (g : RandomSource) :
  snd (getRandomPointInSphere radius g) = advance 3 g.
Proof. reflexivity. Qed.

Lemma cone_source (height maxRadius : R) (g : RandomSource) :
  snd (getRandomPointInCone height maxRadius g) = advance 3 g.
Proof. reflexivity. Qed.

Lemma fluff_source (g : RandomSource) : snd (fluff g) = advance 3 g.
Proof. reflexivity. Qed.

(** The sampled radius is the cube root of the third number times the
    radius of the sphere, and the point lies at that distance from the
    origin. *)
Lemma sphere_length (radius : R) (g : RandomSource) :
  uniform g -> 0 <= radius ->
  vlength (fst (getRandomPointInSphere radius g))
  = Num.cbrt (stream g (2 + pos g)) * radius.
Proof.
  intros U Hr.
  unfold getRandomPointInSphere, bind, Math_random, ret; cbn [fst stream pos].
  rewrite spherical_length.
  pose proof (cbrt_unit _ (U (S (S (pos g))))) as [C0 C1].
  apply Rabs_pos_eq. apply Rmult_le_pos; assumption.
Qed.

Lemma sphere_inside (radius : R) (g : RandomSource) :
  uniform g -> 0 <= radius ->
  vlength (fst (getRandomPointInSphere radius g)) <= radius.
Proof.
  intros U Hr; rewrite (sphere_length radius g U Hr).
  pose proof (cbrt_unit _ (U (2 + pos g)%nat)) as [C0 C1]. nra.
Qed.

Lemma cone_height (height maxRadius : R) (g : RandomSource) :
  vy (fst (getRandomPointInCone height maxRadius g))
  = stream g (pos g) * height - height / 2 - 0.5.
Proof. reflexivity. Qed.

(** The sampled point is inside the cone: its distance from the axis is at
    most the radius of the cone at its height. *)
Lemma cone_inside (height maxRadius : R) (g : RandomSource) :
  uniform g -> 0 < height -> 0 <= maxRadius ->
  0 <= coneRadiusAt height maxRadius
         (vy (fst (getRandomPointInCone height maxRadius g))) /\
  radial (fst (getRandomPointInCone height maxRadius g))
  <= coneRadiusAt height maxRadius
       (vy (fst (getRandomPointInCone height maxRadius g))).
Proof.
  intros U Hh Hm.
  unfold getRandomPointInCone, bind, Math_random, ret;
    cbn [fst stream pos vy].
  rewrite polar_radial.
  pose proof (U (pos g)) as [A0 A1].
  pose proof (sqrt_unit _ (U (S (pos g)))) as [B0 B1].
  set (a := stream g (pos g)) in *.
  set (sb := sqrt (stream g (S (pos g)))) in *.
  assert (E : coneRadiusAt height maxRadius (a * height - height / 2 - 0.5)
              = (1 - a * height / height) * maxRadius).
  { unfold coneRadiusAt; f_equal; f_equal; f_equal; lra. }
  rewrite E.
  assert (Q : a * height / height = a) by (field; lra).
  rewrite Q.
  assert (P : 0 <= (1 - a) * maxRadius) by (apply Rmult_le_pos; lra).
  split; [exact P |].
  rewrite Rabs_pos_eq by (apply Rmult_le_pos; assumption).
  nra.
Qed.

Lemma fluff_small (g : RandomSource) :
  uniform g ->
  - 0.15 <= vx (fst (fluff g)) < 0.15 /\
  - 0.15 <= vy (fst (fluff g)) < 0.15 /\
  - 0.15 <= vz (fst (fluff g)) < 0.15.
Proof.
  intros U; unfold fluff, bind, Math_random, ret; cbn [fst stream pos vx vy vz].
  pose proof (U (pos g)); pose proof (U (S (pos g)));
    pose proof (U (S (S (pos g)))).
  repeat split; lra.
Qed.

(** *** Typed arrays *)

Lemma aset_len (a : Float32Array) (i : nat) (v : R) :
  len (aset a i v) = len a.
Proof. unfold aset; destruct (i <? len a)%nat; reflexivity. Qed.

Lemma aset_same (a : Float32Array) (i : nat) (v : R) :
  (i < len a)%nat -> cell (aset a i v) i = v.
Proof.
  intros L; unfold aset. apply Nat.ltb_lt in L; rewrite L; cbn [cell].
  rewrite Nat.eqb_refl; reflexivity.
Qed.

Lemma aset_other (a : Float32Array) (i j : nat) (v : R) :
  j <> i -> cell (aset a i v) j = cell a j.
Proof.
  intros N; unfold aset; destruct (i <? len a)%nat; [| reflexivity].
  cbn [cell]. apply Nat.eqb_neq in N; rewrite N; reflexivity.
Qed.

Lemma store3_len (a : Float32Array) (i : nat) (v : Vector3) :
  len (store3 a i v) = len a.
Proof. unfold store3; rewrite !aset_len; reflexivity. Qed.

Lemma store3_same (a : Float32Array) (i : nat) (v : Vector3) :
  (i * 3 + 2 < len a)%nat -> positionAt (store3 a i v) i = v.
Proof.
  intros L; unfold positionAt, store3; destruct v as [x y z]; cbn [vx vy vz].
  f_equal.
  - rewrite !aset_other by lia. apply aset_same; lia.
  - rewrite aset_other by lia. apply aset_same; rewrite aset_len; lia.
  - apply aset_same; rewrite !aset_len; lia.
Qed.

Lemma store3_other (a : Float32Array) (i j : nat) (v : Vector3) :
  j <> i -> positionAt (store3 a i v) j = positionAt a j.
Proof.
  intros N; unfold positionAt, store3.
  f_equal; rewrite !aset_other by lia; reflexivity.
Qed.

(** *** The loop of [generateFoliage] *)

(** What the body writes at index [i], in terms of the source it starts
    from: twelve numbers are read, the first three by the sphere sampler,
    the next three by the cone sampler, the next three by the jitter. *)
Lemma foliageBody_effect (i : nat) (b : Buffers) (g : RandomSource) :
  exists ra si : Float32Array,
    foliageBody i b g
    = (mkBuffers
         (store3 (bScatter b) i (fst (getRandomPointInSphere SCATTER_RADIUS g)))
         (store3 (bTree b) i
            (vadd (fst (getRandomPointInCone TREE_HEIGHT TREE_RADIUS
                          (advance 3 g)))
                  (fst (fluff (advance 6 g)))))
         ra si,
       advance 12 g).
Proof.
  exists (aset (bRandoms b) i (stream g (9 + pos g))),
         (aset (bSizes b) i
               (if Num.ltb 0.9 (stream g (10 + pos g))
                then 2.0 + stream g (11 + pos g) * 2.0
                else 0.5 + stream g (11 + pos g) * 0.8)).
  reflexivity.
Qed.

Lemma foliageLoop_invariant (Inv : nat -> Buffers -> RandomSource -> Prop) :
  (forall i b g, Inv i b g ->
     Inv (S i) (fst (foliageBody i b g)) (snd (foliageBody i b g))) ->
  forall n i b g, Inv i b g ->
    Inv (n + i)%nat (fst (foliageLoop n i b g)) (snd (foliageLoop n i b g)).
Proof.
  intros Step n; induction n as [| n IH]; intros i b g H; [exact H |].
  cbn [foliageLoop]; unfold bind.
  specialize (Step i b g H).
  destruct (foliageBody i b g) as [b' g']; cbn [fst snd] in Step.
  replace (S n + i)%nat with (n + S i)%nat by lia.
  apply IH; exact Step.
Qed.

(** Particle [j] of the generated data is what the samplers return on the
    source advanced by [12 * j]. *)
Lemma generateFoliageOf_particle (n : nat) (g : RandomSource) (j : nat) :
  (j < n)%nat ->
  scatterPosition (fst (generateFoliageOf n g)) j
  = fst (getRandomPointInSphere SCATTER_RADIUS (advance (12 * j) g)) /\
  formationPosition (fst (generateFoliageOf n g)) j
  = vadd (fst (getRandomPointInCone TREE_HEIGHT TREE_RADIUS
                 (advance (12 * j + 3) g)))
         (fst (fluff (advance (12 * j + 6) g))).
Proof.
  intros L.
  set (Inv := fun (i : nat) (b : Buffers) (g' : RandomSource) =>
    g' = advance (12 * i) g /\
    len (bScatter b) = (n * 3)%nat /\ len (bTree b) = (n * 3)%nat /\
    forall k : nat, (k < i)%nat -> (k < n)%nat ->
      positionAt (bScatter b) k
      = fst (getRandomPointInSphere SCATTER_RADIUS (advance (12 * k) g)) /\
      positionAt (bTree b) k
      = vadd (fst (getRandomPointInCone TREE_HEIGHT TREE_RADIUS
                     (advance (12 * k + 3) g)))
             (fst (fluff (advance (12 * k + 6) g)))).
  assert (Step : forall i b g', Inv i b g' ->
            Inv (S i) (fst (foliageBody i b g')) (snd (foliageBody i b g'))).
  { intros i b g' (Eg & Ls & Lt & H).
    destruct (foliageBody_effect i b g') as (ra & si & ->); cbn [fst snd].
    unfold Inv; cbn [bScatter bTree]; rewrite !store3_len.
    split; [| split; [exact Ls | split; [exact Lt |]]].
    - subst g'; unfold advance; cbn [stream pos]; f_equal; lia.
    - intros k Lk Ln. destruct (Nat.eq_dec k i) as [-> | Ne].
      + rewrite !store3_same by lia. subst g'; unfold advance; cbn [stream pos].
        replace (3 + (12 * i + pos g))%nat with (12 * i + 3 + pos g)%nat by lia.
        replace (6 + (12 * i + pos g))%nat with (12 * i + 6 + pos g)%nat by lia.
        split; reflexivity.
      + rewrite !store3_other by exact Ne. apply H; [lia | exact Ln]. }
  pose proof (foliageLoop_invariant Inv Step n 0%nat
                (mkBuffers (newFloat32Array (n * 3)) (newFloat32Array (n * 3))
                           (newFloat32Array n) (newFloat32Array n)) g) as F.
  assert (I0 : Inv 0%nat
                 (mkBuffers (newFloat32Array (n * 3)) (newFloat32Array (n * 3))
                            (newFloat32Array n) (newFloat32Array n)) g).
  { unfold Inv; cbn [bScatter bTree newFloat32Array len].
    split; [destruct g; reflexivity |].
    split; [reflexivity | split; [reflexivity |]]. intros k Lk; lia. }
  specialize (F I0). destruct F as (_ & _ & _ & F).
  unfold generateFoliageOf, bind, ret, scatterPosition, formationPosition.
  destruct (foliageLoop n 0 _ g) as [b g'']; cbn [fst snd] in *.
  cbn [scatterPositions treePositions].
  apply F; lia.
Qed.

End GeometryFacts.

Module GeometryClaims.

Import Geometry NumFacts GeometryFacts Examples.

Lemma foliage_count_pos : (0 < FOLIAGE_COUNT)%nat.
Proof. unfold FOLIAGE_COUNT; lia. Qed.

Lemma evenSource_uniform : uniform evenSource.
Proof. intros n; cbn [stream evenSource]; lra. Qed.

Lemma apexSource_uniform : uniform apexSource.
Proof.
  intros n; cbn [stream apexSource]; destruct (n =? 3)%nat; lra.
Qed.

(** C8. Whatever numbers the random source hands out, the scatter position
    of every generated foliage particle lies at distance
    [cbrt(u) * SCATTER_RADIUS] from the origin, [u] being the third number
    read for that particle, and so within the scatter sphere. *)
Theorem scatter_inside_sphere (g : RandomSource) (i : nat) :
  uniform g -> (i < FOLIAGE_COUNT)%nat ->
  0 <= stream g (12 * i + 2 + pos g) < 1 /\
  vlength (scatterPosition (fst (generateFoliage g)) i)
  = Num.cbrt (stream g (12 * i + 2 + pos g)) * SCATTER_RADIUS /\
  vlength (scatterPosition (fst (generateFoliage g)) i) <= SCATTER_RADIUS.
Proof.
  intros U L; unfold generateFoliage.
  destruct (generateFoliageOf_particle FOLIAGE_COUNT g i L) as [-> _].
  assert (R0 : 0 <= SCATTER_RADIUS) by (unfold SCATTER_RADIUS; lra).
  pose proof (advance_uniform (12 * i) g U) as UA.
  split; [apply U | split].
  - rewrite (sphere_length _ _ UA R0); cbn [advance stream pos].
    replace (2 + (12 * i + pos g))%nat with (12 * i + 2 + pos g)%nat by lia.
    reflexivity.
  - apply sphere_inside; assumption.
Qed.

Lemma scatter_inside_sphere_witness :
  vlength (scatterPosition (fst (generateFoliage evenSource)) 0)
  <= SCATTER_RADIUS.
Proof.
  apply (scatter_inside_sphere evenSource 0 evenSource_uniform
           foliage_count_pos).
Defined.

(** Counterexample to C7 as stated: with the source [apexSource] the cone
    sample of the first particle is on the axis at height 2.93, the jitter
    moves it to (-0.15, 2.78, -0.15), and there the cone is only 0.088 wide
    while the particle is more than 0.2 away from the axis. *)
Lemma jitter_leaves_cone :
  uniform apexSource /\
  formationPosition (fst (generateFoliage apexSource)) 0
  = mkVec (-0.15) 2.78 (-0.15) /\
  coneRadiusAt TREE_HEIGHT TREE_RADIUS
    (vy (formationPosition (fst (generateFoliage apexSource)) 0))
  < radial (formationPosition (fst (generateFoliage apexSource)) 0).
Proof.
  assert (E : formationPosition (fst (generateFoliage apexSource)) 0
              = mkVec (-0.15) 2.78 (-0.15)).
  { unfold generateFoliage.
    destruct (generateFoliageOf_particle FOLIAGE_COUNT apexSource 0
                foliage_count_pos) as [_ ->].
    unfold getRandomPointInCone, fluff, bind, Math_random, ret, vadd,
      TREE_HEIGHT, TREE_RADIUS.
    cbn [fst snd stream pos advance apexSource vx vy vz Nat.mul Nat.add
         Nat.eqb].
    rewrite sqrt_0. f_equal; lra. }
  split; [exact apexSource_uniform | split; [exact E |]].
  rewrite E; unfold radial, coneRadiusAt, TREE_HEIGHT, TREE_RADIUS;
    cbn [vx vy vz].
  apply Rle_lt_trans with 0.088; [lra |].
  rewrite <- (sqrt_square 0.088) by lra.
  apply sqrt_lt_1_alt; lra.
Qed.

(** C7, amended. The formation position of every generated foliage particle
    is a sample of the cone moved by a jitter.  The sample is inside the
    cone: its distance from the vertical axis is at most the radius of the
    cone at the height of the sample, a radius that tapers linearly from
    [TREE_RADIUS] to 0 over [TREE_HEIGHT].  The jitter moves every coordinate
    by at most 0.15, so the formation position itself need not be inside the
    cone. *)
Theorem formation_is_jittered_cone_sample (g : RandomSource) (i : nat) :
  uniform g -> (i < FOLIAGE_COUNT)%nat ->
  exists p j : Vector3,
    formationPosition (fst (generateFoliage g)) i = vadd p j /\
    p = fst (getRandomPointInCone TREE_HEIGHT TREE_RADIUS
               (advance (12 * i + 3) g)) /\
    radial p <= coneRadiusAt TREE_HEIGHT TREE_RADIUS (vy p) /\
    0 <= coneRadiusAt TREE_HEIGHT TREE_RADIUS (vy p) <= TREE_RADIUS /\
    - 0.15 <= vx j < 0.15 /\ - 0.15 <= vy j < 0.15 /\ - 0.15 <= vz j < 0.15.
Proof.
  intros U L; unfold generateFoliage.
  destruct (generateFoliageOf_particle FOLIAGE_COUNT g i L) as [_ ->].
  pose proof (advance_uniform (12 * i + 3) g U) as U3.
  pose proof (advance_uniform (12 * i + 6) g U) as U6.
  eexists; eexists; split; [reflexivity | split; [reflexivity |]].
  destruct (cone_inside TREE_HEIGHT TREE_RADIUS _ U3) as [P I];
    [unfold TREE_HEIGHT; lra | unfold TREE_RADIUS; lra |].
  split; [exact I | split; [split; [exact P |] | apply fluff_small; exact U6]].
  rewrite cone_height. unfold coneRadiusAt, TREE_HEIGHT, TREE_RADIUS.
  pose proof (U3 (pos (advance (12 * i + 3) g))) as [A0 A1].
  set (a := stream _ _) in *. lra.
Qed.

Lemma formation_is_jittered_cone_sample_witness :
  exists p j : Vector3,
    formationPosition (fst (generateFoliage evenSource)) 0 = vadd p j /\
    radial p <= coneRadiusAt TREE_HEIGHT TREE_RADIUS (vy p) /\
    - 0.15 <= vx j < 0.15.
Proof.
  destruct (formation_is_jittered_cone_sample evenSource 0 evenSource_uniform
              foliage_count_pos) as (p & j & E & _ & I & _ & J & _).
  exists p, j; split; [exact E | split; [exact I | exact J]].
Defined.

End GeometryClaims.

(** ** Sessions of [App]: what every sequence of events keeps *)

Module SessionFacts.

Import Handlers HandTracker Smoothing Session.
Import NumFacts SmoothingFacts HandTrackerFacts HandlerFacts Examples.

Lemma approach_between (k t c lo hi : R) :
  0 < k < 1 -> lo <= c <= hi -> lo <= t <= hi ->
  lo <= approach k t c <= hi.
Proof.
  intros Hk Hc Ht. destruct (Rle_dec c t) as [L | G].
  - pose proof (approach_from_below k Hk t c L). lra.
  - pose proof (approach_from_above k Hk t c ltac:(lra)). lra.
Qed.

Lemma loop_inUnit (s : AppState) : inUnit s -> inUnit (loop s).
Proof.
  intros (M & TM & H & TH).
  unfold inUnit, loop, morphUpdater, heightUpdater;
    cbn [morphProgress targetMorphRef handHeight targetHeightRef].
  pose proof (approach_between 0.08 (targetMorphRef s) (morphProgress s) 0 1
                ltac:(lra) M TM).
  pose proof (approach_between 0.05 (targetHeightRef s) (handHeight s) 0 1
                ltac:(lra) H TH).
  repeat split; lra.
Qed.

Lemma handle_inUnit (started : bool) (mode : TreeState) (s : AppState)
    (d h : R) (det : bool) :
  0 <= h <= 1 -> inUnit s -> inUnit (handleHandUpdate started mode s d h det).
Proof.
  intros Hh I; destruct started; [| rewrite handle_not_started; exact I].
  destruct I as (M & TM & H & TH). destruct det.
  - rewrite handle_detected; unfold inUnit; cbn.
    pose proof (clamp_range d 0 1 ltac:(lra)). repeat split; lra.
  - rewrite handle_lost; unfold inUnit; cbn.
    destruct mode; repeat split; lra.
Qed.

Lemma step_inUnit (e : Event) (s s' : AppState) :
  inUnit s -> step e s = Some s' -> inUnit s'.
Proof.
  intros I; destruct e as [| | | results | started mode results]; cbn [step].
  - intros E; injection E as <-; apply loop_inUnit; exact I.
  - intros E; injection E as <-; exact I.
  - intros E; injection E as <-. destruct I as (M & TM & H & TH).
    unfold inUnit, toggleState; cbn.
    destruct (treeState s); cbn; repeat split; lra.
  - unfold predictWebcam.
    destruct (delivered results) as [r |] eqn:D; cbn [bindOpt];
      [| discriminate].
    intros E; injection E as <-.
    destruct (delivered_range results r D) as [_ Hh].
    apply handle_inUnit; assumption.
  - unfold predictWebcam.
    destruct (delivered results) as [r |] eqn:D; cbn [bindOpt];
      [| discriminate].
    intros E; injection E as <-.
    destruct (delivered_range results r D) as [_ Hh].
    apply handle_inUnit; assumption.
Qed.

Lemma run_invariant (P : AppState -> Prop) :
  (forall e s s', P s -> step e s = Some s' -> P s') ->
  forall es s s', P s -> run es s = Some s' -> P s'.
Proof.
  intros Step es; induction es as [| e es IH]; intros s s' H; cbn [run].
  - intros E; injection E as <-; exact H.
  - destruct (step e s) as [s1 |] eqn:E1; cbn [bindOpt]; [| discriminate].
    apply IH, (Step e s s1 H E1).
Qed.

Lemma run_inUnit (es : list Event) (s' : AppState) :
  run es initialApp = Some s' -> inUnit s'.
Proof.
  apply (run_invariant inUnit step_inUnit).
  unfold inUnit, initialApp; cbn; repeat split; lra.
Qed.

(** X1. Whatever happens in a session (ticks, the opening, toggles, camera
    frames with any landmarks, handled by the current callback or by one
    created earlier), the smoothed morph value, the morph target, the smoothed
    height and the height target stay in [0, 1]. *)
Theorem session_values_in_unit (es : list Event) (s' : AppState) :
  run es initialApp = Some s' ->
  0 <= morphProgress s' <= 1 /\ 0 <= targetMorphRef s' <= 1 /\
  0 <= handHeight s' <= 1 /\ 0 <= targetHeightRef s' <= 1.
Proof.
  intros E.
  assert (I0 : inUnit initialApp)
    by (unfold inUnit, initialApp; cbn; repeat split; lra).
  exact (run_invariant inUnit step_inUnit es initialApp s' I0 E).
Qed.

Lemma session_values_in_unit_witness :
  0 <= morphProgress (loop (toggleState (startExperience initialApp))) <= 1.
Proof.
  apply (session_values_in_unit [Open; Toggle; Tick]). reflexivity.
Defined.

Lemma loop_on_target (s : AppState) :
  morphProgress s = targetMorphRef s -> handHeight s = targetHeightRef s ->
  loop s = s.
Proof.
  destruct s as [st ts mp hd hh tm th]; cbn; intros -> ->.
  unfold loop, morphUpdater, heightUpdater; cbn.
  rewrite !approach_fixed; reflexivity.
Qed.

(** X2. Before the experience is opened nothing moves: from the initial
    state every sequence of ticks and camera frames that does not throw
    leaves the state exactly as it was. *)
Theorem idle_until_opened (es : list Event) (s' : AppState) :
  (forall e, In e es -> e = Tick \/ exists results, e = Frame results) ->
  run es initialApp = Some s' ->
  s' = initialApp.
Proof.
  intros Only.
  assert (G : forall s, atRest s -> run es s = Some s' -> s' = s).
  { induction es as [| e es IH]; intros s A; cbn [run].
    - intros E; injection E as <-; reflexivity.
    - destruct A as (St & M & H).
      assert (E1 : forall s1, step e s = Some s1 -> s1 = s).
      { destruct (Only e (or_introl eq_refl)) as [-> | [results ->]];
          cbn [step]; intros s1 E.
        - injection E as <-; apply loop_on_target; assumption.
        - unfold predictWebcam in E.
          destruct (delivered results) as [r |]; cbn [bindOpt] in E;
            [| discriminate].
          injection E as <-. unfold onHandUpdate; rewrite St.
          apply handle_not_started. }
      destruct (step e s) as [s1 |]; cbn [bindOpt]; [| discriminate].
      rewrite (E1 s1 eq_refl). apply IH.
      + intros e' I; apply Only; right; exact I.
      + repeat split; assumption. }
  intros E; apply G; [| exact E].
  unfold atRest, initialApp; cbn; repeat split.
Qed.

Lemma idle_until_opened_witness :
  run [Tick; Frame twoHandsWide; Tick] initialApp = Some initialApp.
Proof.
  destruct (run [Tick; Frame twoHandsWide; Tick] initialApp) as [s' |] eqn:E.
  - f_equal. apply (idle_until_opened [Tick; Frame twoHandsWide; Tick]).
    + intros e [<- | [<- | [<- | []]]];
        [left; reflexivity | right; eexists; reflexivity | left; reflexivity].
    + exact E.
  - exfalso. cbn [run step bindOpt] in E. unfold predictWebcam in E.
    rewrite delivered_twoHandsWide in E. discriminate.
Defined.

(** X3. In every state a session can reach, leaving the scene alone for 136
    animation frames brings the smoothed morph value and the smoothed height
    exactly onto their targets (84 frames are enough for the morph value),
    and they stay there. *)
Theorem session_settles (es : list Event) (s' : AppState) (n : nat) :
  run es initialApp = Some s' ->
  ((84 <= n)%nat -> morphProgress (ticks n s') = targetMorphRef s') /\
  ((136 <= n)%nat ->
     morphProgress (ticks n s') = targetMorphRef s' /\
     handHeight (ticks n s') = targetHeightRef s' /\
     loop (ticks n s') = ticks n s').
Proof.
  intros E. destruct (run_inUnit es s' E) as (M & TM & H & TH).
  assert (A : (84 <= n)%nat -> morphProgress (ticks n s') = targetMorphRef s').
  { intros L; rewrite ticks_morph.
    apply (iterate_reaches 0.08) with (n := 83%nat); [lra | | lia].
    assert (D : Rabs (targetMorphRef s' - morphProgress s') <= 1)
      by (apply Rabs_le; lra).
    pose proof (Rabs_pos (targetMorphRef s' - morphProgress s')).
    assert (Q : (1 - 0.08) ^ 83 < 0.001) by lra.
    assert (Q0 : 0 < (1 - 0.08) ^ 83) by (apply pow_lt; lra). nra. }
  split; [exact A |]. intros L.
  assert (B : handHeight (ticks n s') = targetHeightRef s').
  { rewrite ticks_height.
    apply (iterate_reaches 0.05) with (n := 135%nat); [lra | | lia].
    assert (D : Rabs (targetHeightRef s' - handHeight s') <= 1)
      by (apply Rabs_le; lra).
    pose proof (Rabs_pos (targetHeightRef s' - handHeight s')).
    assert (Q : (1 - 0.05) ^ 135 < 0.001) by lra.
    assert (Q0 : 0 < (1 - 0.05) ^ 135) by (apply pow_lt; lra). nra. }
  split; [apply A; lia | split; [exact B |]].
  destruct (ticks_frame n s') as (_ & _ & _ & E1 & E2).
  apply loop_on_target; [rewrite E1; apply A; lia | rewrite E2; exact B].
Qed.

Lemma session_settles_witness :
  morphProgress (ticks 84 (toggleState (startExperience initialApp)))
  = targetMorphRef (toggleState (startExperience initialApp)).
Proof.
  destruct (session_settles [Open; Toggle]
              (toggleState (startExperience initialApp)) 84 eq_refl)
    as [A _].
  apply A; lia.
Defined.

(** X4. The manual toggle flips the discrete mode, two toggles restore it,
    and every toggle sets the morph target to the value of the new mode (0
    for Assembled, 1 for Scattered) and touches neither the height target nor
    the smoothed values. *)
Theorem toggle_flips_mode (s : AppState) :
  treeState (toggleState s) <> treeState s /\
  treeState (toggleState (toggleState s)) = treeState s /\
  targetMorphRef (toggleState s)
  = match treeState (toggleState s) with ASSEMBLED => 0 | SCATTERED => 1 end /\
  targetMorphRef (toggleState (toggleState s))
  = match treeState s with ASSEMBLED => 0 | SCATTERED => 1 end /\
  targetHeightRef (toggleState s) = targetHeightRef s /\
  morphProgress (toggleState s) = morphProgress s /\
  handHeight (toggleState s) = handHeight s.
Proof.
  unfold toggleState; destruct (treeState s) eqn:E; cbn; rewrite ?E;
    repeat split; discriminate.
Qed.

End SessionFacts.

(** ** More on the gesture mapper *)

Module HandTrackerMore.

Import Handlers HandTracker Session.
Import NumFacts HandTrackerFacts HandlerFacts Examples.

Lemma at_index_none (h : Hand) (i : nat) :
  at_index h i = None <-> (length h <= i)%nat.
Proof. unfold at_index; apply nth_error_None. Qed.

Lemma delivered_none (results : Results) :
  delivered results = None <-> interaction results = None.
Proof.
  unfold delivered; destruct (interaction results); cbn [bindOpt];
    split; intros E; try discriminate; reflexivity.
Qed.

(** X5. A camera frame throws, and so delivers no reading and leaves the
    state of [App] untouched, exactly when a landmark it reads is missing:
    one hand with fewer than 21 landmarks, or two hands one of which has
    fewer than 9.  Frames with no hand, or with three hands or more, never
    throw. *)
Theorem frame_throws_iff_landmark_missing (results : Results) :
  (delivered results = None <->
   (exists h, landmarks results = Some [h] /\ (length h <= 20)%nat) \/
   (exists h0 h1, landmarks results = Some [h0; h1] /\
      ((length h0 <= 8)%nat \/ (length h1 <= 8)%nat))) /\
  (delivered results = None ->
   forall callback s, predictWebcam callback results s = None).
Proof.
  split; [| intros E callback s; unfold predictWebcam; rewrite E; reflexivity].
  rewrite delivered_none; unfold interaction.
  destruct (landmarks results) as [[| h0 [| h1 [| h2 t]]] |].
  - split; [discriminate | intros [(h & E & _) | (a & b & E & _)]; discriminate].
  - split.
    + intros E; left; exists h0; split; [reflexivity |].
      destruct (at_index h0 4) eqn:E4;
        [| apply at_index_none in E4; lia].
      destruct (at_index h0 20) eqn:E20;
        [| apply at_index_none in E20; lia].
      destruct (at_index h0 8) eqn:E8;
        [discriminate | apply at_index_none in E8; lia].
    + intros [(h & E & L) | (a & b & E & _)]; [| discriminate].
      injection E as <-.
      assert (E20 : at_index h0 20 = None) by (apply at_index_none; lia).
      destruct (at_index h0 4); cbn [bindOpt]; [| reflexivity].
      rewrite E20; reflexivity.
  - split.
    + intros E; right; exists h0, h1; split; [reflexivity |].
      destruct (at_index h0 8) eqn:E0;
        [| left; apply at_index_none in E0; exact E0].
      destruct (at_index h1 8) eqn:E1;
        [discriminate | right; apply at_index_none in E1; exact E1].
    + intros [(h & E & _) | (a & b & E & L)]; [discriminate |].
      injection E as <- <-.
      destruct L as [L | L]; apply at_index_none in L.
      * rewrite L; reflexivity.
      * rewrite L; destruct (at_index h0 8); reflexivity.
  - split; [discriminate | intros [(h & E & _) | (a & b & E & _)]; discriminate].
  - split; [discriminate | intros [(h & E & _) | (a & b & E & _)]; discriminate].
Qed.

Lemma frame_throws_iff_landmark_missing_witness :
  delivered (mkResults (Some [shortHand])) = None.
Proof.
  apply (proj1 (frame_throws_iff_landmark_missing
                  (mkResults (Some [shortHand])))).
  left; exists shortHand; split; [reflexivity | cbn; lia].
Defined.

(** X6. The order in which the recognizer lists two hands does not matter:
    swapping them gives the same delivered reading (or the same failure). *)
Theorem two_hands_order_irrelevant (h0 h1 : Hand) :
  delivered (mkResults (Some [h0; h1])) = delivered (mkResults (Some [h1; h0])).
Proof.
  unfold delivered, interaction; cbn [landmarks].
  destruct (at_index h0 8) as [a |]; destruct (at_index h1 8) as [b |];
    cbn [bindOpt]; try reflexivity.
  cbn [distance height detected]. do 2 f_equal.
  - f_equal; f_equal; f_equal; ring.
  - f_equal; f_equal; f_equal; f_equal; ring.
Qed.

Lemma clamp_twice (x : R) :
  Num.clamp (Num.clamp x 0 1.2) 0 1 = Num.clamp x 0 1.
Proof.
  destruct (Rle_dec x 0) as [L0 | G0].
  - rewrite (clamp_low x 0 1.2), (clamp_low 0 0 1), (clamp_low x 0 1);
      lra.
  - destruct (Rle_dec x 1) as [L1 | G1].
    + rewrite (clamp_id x 0 1.2), (clamp_id x 0 1); lra.
    + destruct (Rle_dec x 1.2) as [L2 | G2].
      * rewrite (clamp_id x 0 1.2), (clamp_high x 0 1); lra.
      * rewrite (clamp_high x 0 1.2), (clamp_high 1.2 0 1),
          (clamp_high x 0 1); lra.
Qed.

(** X7. After the start, a camera frame with two hands sets the morph target
    to the fingertip distance clamped to [0, 1] (the clamp to 1.2 of the
    tracker is absorbed by the clamp of the handler), the height target to the
    delivered height, and the hand-detected flag to true; it changes neither
    smoothed value.  A one-hand frame does the same with twice the thumb-pinky
    distance. *)
Theorem frame_sets_targets (s : AppState) (results : Results) :
  hasStarted s = true ->
  (forall h0 h1 a b,
     landmarks results = Some [h0; h1] ->
     at_index h0 8 = Some a -> at_index h1 8 = Some b ->
     exists s', predictWebcam onHandUpdate results s = Some s' /\
       targetMorphRef s' = Num.clamp (euclidean a b) 0 1 /\
       targetHeightRef s' = Num.clamp (1 - (ly a + ly b) / 2) 0 1 /\
       handDetected s' = true /\
       morphProgress s' = morphProgress s /\ handHeight s' = handHeight s) /\
  (forall h thumb pinky index,
     landmarks results = Some [h] ->
     at_index h 4 = Some thumb -> at_index h 20 = Some pinky ->
     at_index h 8 = Some index ->
     exists s', predictWebcam onHandUpdate results s = Some s' /\
       targetMorphRef s' = Num.clamp (2 * euclidean thumb pinky) 0 1 /\
       targetHeightRef s' = Num.clamp (1 - ly index) 0 1 /\
       handDetected s' = true /\
       morphProgress s' = morphProgress s /\ handHeight s' = handHeight s).
Proof.
  intros St; split.
  - intros h0 h1 a b E Ea Eb.
    destruct results as [lm]; cbn [landmarks] in E; subst lm.
    unfold predictWebcam; rewrite (delivered_two_hands h0 h1 a b Ea Eb).
    cbn [bindOpt distance height detected].
    rewrite (onHandUpdate_started s _ _ true St), handle_detected.
    eexists; split; [reflexivity |]; cbn.
    rewrite clamp_twice; repeat split.
  - intros h t p i E Et Ep Ei.
    destruct results as [lm]; cbn [landmarks] in E; subst lm.
    unfold predictWebcam; rewrite (delivered_one_hand h t p i Et Ep Ei).
    cbn [bindOpt distance height detected].
    rewrite (onHandUpdate_started s _ _ true St), handle_detected.
    eexists; split; [reflexivity |]; cbn.
    rewrite clamp_twice; repeat split.
Qed.

Lemma frame_sets_targets_witness :
  exists s', predictWebcam onHandUpdate twoHandsApart startedApp = Some s' /\
    targetMorphRef s'
    = Num.clamp (euclidean (mkLandmark 0.25 0.3 0) (mkLandmark 0.75 0.3 0)) 0 1.
Proof.
  destruct (frame_sets_targets startedApp twoHandsApart eq_refl) as [T _].
  destruct (T (handAt 0.25 0.3) (handAt 0.75 0.3)
              (mkLandmark 0.25 0.3 0) (mkLandmark 0.75 0.3 0) eq_refl
              eq_refl eq_refl) as (s' & E & M & _).
  exists s'; split; [exact E | exact M].
Defined.

Lemma euclidean_pos (a b : Landmark) : 0 <= euclidean a b.
Proof. apply sqrt_pos. Qed.

(** X8. For two index fingertips inside the image (coordinates in [0, 1])
    the delivered height is 1 minus their mean [y] with no clamping at work,
    so the top row gives height 1 and the bottom row height 0; the delivered
    spread is the smaller of their distance and 1.2, hence exactly 1.2 for
    every distance of 1.2 or more. *)
Theorem reading_inside_image (h0 h1 : Hand) (a b : Landmark) :
  at_index h0 8 = Some a -> at_index h1 8 = Some b ->
  0 <= ly a <= 1 -> 0 <= ly b <= 1 ->
  exists r, delivered (mkResults (Some [h0; h1])) = Some r /\
    height r = 1 - (ly a + ly b) / 2 /\
    distance r = Rmin (euclidean a b) 1.2 /\
    (ly a = 0 -> ly b = 0 -> height r = 1) /\
    (ly a = 1 -> ly b = 1 -> height r = 0) /\
    (1.2 <= euclidean a b -> distance r = 1.2).
Proof.
  intros Ea Eb Ya Yb. rewrite (delivered_two_hands h0 h1 a b Ea Eb).
  eexists; split; [reflexivity |]; cbn [height distance].
  pose proof (euclidean_pos a b) as P.
  assert (H : Num.clamp (1 - (ly a + ly b) / 2) 0 1 = 1 - (ly a + ly b) / 2)
    by (apply clamp_id; lra).
  assert (D : Num.clamp (euclidean a b) 0 1.2 = Rmin (euclidean a b) 1.2)
    by (unfold Num.clamp; rewrite Rmax_left by exact P; reflexivity).
  rewrite H, D; split; [reflexivity | split; [reflexivity |]].
  split; [intros -> ->; lra | split; [intros -> ->; lra |]].
  intros L; apply Rmin_right; exact L.
Qed.

Lemma reading_inside_image_witness :
  exists r, delivered twoHandsWide = Some r /\ height r = 1 - (0.5 + 0.5) / 2.
Proof.
  destruct (reading_inside_image (handAt 0 0.5) (handAt 1 0.5)
              (mkLandmark 0 0.5 0) (mkLandmark 1 0.5 0) eq_refl eq_refl)
    as (r & E & H & _); cbn [ly]; try lra.
  exists r; split; [exact E | exact H].
Defined.

End HandTrackerMore.

(** ** More on the blend engine *)

Module BlendMore.

Import Geometry ParticleScene NumFacts BlendFacts Examples.

Lemma cube_monotone (x y : R) : x <= y -> x * x * x <= y * y * y.
Proof.
  intros L.
  assert (Q : 0 <= x * x + x * y + y * y).
  { replace (x * x + x * y + y * y)
      with ((x + y / 2) * (x + y / 2) + 3 / 4 * (y * y)) by field.
    pose proof (Rle_0_sqr (x + y / 2)); pose proof (Rle_0_sqr y);
      unfold Rsqr in *; lra. }
  replace (y * y * y) with (x * x * x + (y - x) * (x * x + x * y + y * y))
    by ring.
  assert (0 <= (y - x) * (x * x + x * y + y * y))
    by (apply Rmult_le_pos; lra).
  lra.
Qed.

Lemma ease_low_eq (x : R) : x < 0.5 -> easeInOutCubic x = 4 * (x * x * x).
Proof. intros H; rewrite ease_low by exact H; ring. Qed.

Lemma ease_high_eq (x : R) :
  0.5 <= x ->
  easeInOutCubic x = 1 - (2 - 2 * x) * (2 - 2 * x) * (2 - 2 * x) / 2.
Proof. intros H; rewrite ease_high by exact H; simpl; field. Qed.

Lemma ease_monotone (x y : R) :
  x <= y -> easeInOutCubic x <= easeInOutCubic y.
Proof.
  intros L.
  destruct (Rlt_dec x 0.5) as [X | X]; destruct (Rlt_dec y 0.5) as [Y | Y].
  - rewrite !ease_low_eq by assumption.
    pose proof (cube_monotone x y L); lra.
  - rewrite ease_low_eq by assumption. rewrite ease_high_eq by lra.
    pose proof (cube_monotone x 0.5 ltac:(lra)).
    pose proof (cube_monotone (2 - 2 * y) 1 ltac:(lra)). lra.
  - lra.
  - rewrite !ease_high_eq by lra.
    pose proof (cube_monotone (2 - 2 * y) (2 - 2 * x) ltac:(lra)). lra.
Qed.

Lemma ease_symmetry (x : R) :
  easeInOutCubic (1 - x) = 1 - easeInOutCubic x.
Proof.
  destruct (Rlt_dec x 0.5) as [X | X].
  - rewrite (ease_low_eq x X), ease_high_eq by lra. field.
  - destruct (Req_dec_T x 0.5) as [-> | N].
    + replace (1 - 0.5) with 0.5 by lra. rewrite ease_high_eq by lra. lra.
    + rewrite (ease_high_eq x) by lra. rewrite ease_low_eq by lra. field.
Qed.

Lemma ease_0 : easeInOutCubic 0 = 0.
Proof. rewrite ease_low_eq by lra; ring. Qed.

Lemma ease_1 : easeInOutCubic 1 = 1.
Proof. rewrite ease_high_eq by lra; field. Qed.

(** X9. The shader's [easeInOutCubic] is defined exactly for [x <= 1]
    (beyond 1 the base of its [pow] is negative).  There it is the cubic
    ease-in-out [4x^3] below 0.5 and [1 - (2 - 2x)^3 / 2] from 0.5 on; it maps 0
    to 0, 0.5 to 0.5 and 1 to 1, never decreases (the two branches meet at
    0.5), and on [0, 1] it is point-symmetric about (0.5, 0.5) and stays in
    [0, 1]. *)
Theorem easing_shape (x y : R) :
  (shaderEase x = None <-> 1 < x) /\
  (x <= 1 ->
   shaderEase x
   = Some (if Rlt_dec x (1 / 2) then 4 * x ^ 3
           else 1 - (2 - 2 * x) ^ 3 / 2)) /\
  shaderEase 0 = Some 0 /\ shaderEase 0.5 = Some 0.5 /\
  shaderEase 1 = Some 1 /\
  (x <= y -> y <= 1 ->
   exists a b, shaderEase x = Some a /\ shaderEase y = Some b /\ a <= b) /\
  (0 <= x <= 1 ->
   exists a b, shaderEase x = Some a /\ shaderEase (1 - x) = Some b /\
     b = 1 - a /\ 0 <= a <= 1).
Proof.
  split; [| split; [| split; [| split; [| split; [| split]]]]].
  - split.
    + intros E. destruct (Rle_dec x 1) as [L | G]; [| lra].
      rewrite (shaderEase_defined x L) in E; discriminate.
    + apply shaderEase_undefined.
  - intros L; rewrite (shaderEase_defined x L); f_equal.
    destruct (Rlt_dec x (1 / 2)) as [X | X].
    + rewrite ease_low_eq by lra. ring.
    + rewrite ease_high_eq by lra. field.
  - rewrite shaderEase_defined by lra. f_equal; exact ease_0.
  - rewrite shaderEase_defined by lra. f_equal.
    rewrite ease_high_eq by lra; lra.
  - rewrite shaderEase_defined by lra. f_equal; exact ease_1.
  - intros L U. exists (easeInOutCubic x), (easeInOutCubic y).
    rewrite !shaderEase_defined by lra.
    split; [reflexivity | split; [reflexivity | apply ease_monotone; exact L]].
  - intros [L U]. exists (easeInOutCubic x), (easeInOutCubic (1 - x)).
    rewrite !shaderEase_defined by lra.
    split; [reflexivity | split; [reflexivity | split]].
    + apply ease_symmetry.
    + pose proof (ease_monotone 0 x L) as A; rewrite ease_0 in A.
      pose proof (ease_monotone x 1 U) as B; rewrite ease_1 in B.
      lra.
Qed.

Lemma easing_shape_witness :
  (exists a b, shaderEase 0.25 = Some a /\ shaderEase 0.75 = Some b /\ a <= b)
  /\ shaderEase 0.25 = Some (4 * 0.25 ^ 3).
Proof.
  destruct (easing_shape 0.25 0.75) as (_ & F & _ & _ & _ & M & _).
  split; [apply M; lra |].
  rewrite F by lra. destruct (Rlt_dec 0.25 (1 / 2)); [reflexivity | lra].
Defined.

Lemma clamp_monotone (x y lo hi : R) :
  lo <= hi -> x <= y -> Num.clamp x lo hi <= Num.clamp y lo hi.
Proof.
  intros H L; unfold Num.clamp.
  apply Rle_min_compat_r, Rle_max_compat_r; exact L.
Qed.

Lemma hermite_monotone (s t : R) :
  0 <= s -> s <= t -> t <= 1 -> s * s * (3 - 2 * s) <= t * t * (3 - 2 * t).
Proof.
  intros S L T.
  replace (t * t * (3 - 2 * t))
    with (s * s * (3 - 2 * s)
          + (t - s) * (3 * (t + s) - 2 * (t * t + t * s + s * s))) by ring.
  assert (A : t * t <= t) by nra.
  assert (B : s * s <= s) by nra.
  assert (C : 2 * (t * s) <= t + s) by nra.
  assert (0 <= (t - s) * (3 * (t + s) - 2 * (t * t + t * s + s * s)))
    by (apply Rmult_le_pos; lra).
  lra.
Qed.

Lemma smoothstep_monotone (x y : R) :
  x <= y -> smoothstep 0 1 x <= smoothstep 0 1 y.
Proof.
  intros L; unfold smoothstep; cbv zeta.
  replace ((x - 0) / (1 - 0)) with x by field.
  replace ((y - 0) / (1 - 0)) with y by field.
  pose proof (clamp_range x 0 1 ltac:(lra)) as [X0 X1].
  pose proof (clamp_range y 0 1 ltac:(lra)) as [Y0 Y1].
  pose proof (clamp_monotone x y 0 1 ltac:(lra) L).
  apply hermite_monotone; assumption.
Qed.

Lemma smoothstep_zero (x : R) : smoothstep 0 1 x = 0 <-> x <= 0.
Proof.
  unfold smoothstep; cbv zeta. replace ((x - 0) / (1 - 0)) with x by field.
  split.
  - intros E. destruct (Rle_dec x 0) as [L | G]; [exact L | exfalso].
    assert (P : 0 < Num.clamp x 0 1).
    { destruct (Rle_dec x 1);
        [rewrite clamp_id by lra | rewrite clamp_high by lra]; lra. }
    pose proof (clamp_range x 0 1 ltac:(lra)) as [_ U].
    set (t := Num.clamp x 0 1) in *.
    assert (0 < t * t * (3 - 2 * t))
      by (apply Rmult_lt_0_compat; [apply Rmult_lt_0_compat |]; lra).
    lra.
  - intros L; rewrite clamp_low by lra; ring.
Qed.

Lemma smoothstep_one (x : R) : smoothstep 0 1 x = 1 <-> 1 <= x.
Proof.
  unfold smoothstep; cbv zeta. replace ((x - 0) / (1 - 0)) with x by field.
  split.
  - intros E. destruct (Rle_dec 1 x) as [L | G]; [exact L | exfalso].
    assert (P : Num.clamp x 0 1 < 1).
    { destruct (Rle_dec x 0);
        [rewrite clamp_low by lra | rewrite clamp_id by lra]; lra. }
    pose proof (clamp_range x 0 1 ltac:(lra)) as [Lo _].
    set (t := Num.clamp x 0 1) in *.
    assert (0 < (1 - t) * (1 - t) * (1 + 2 * t))
      by (apply Rmult_lt_0_compat; [apply Rmult_lt_0_compat |]; lra).
    replace (t * t * (3 - 2 * t)) with (1 - (1 - t) * (1 - t) * (1 + 2 * t))
      in E by ring.
    lra.
  - intros L; rewrite clamp_high by lra; ring.
Qed.

Lemma localProgress_zero (m r : R) : localProgress m r = 0 <-> 3 * m <= r.
Proof.
  rewrite localProgress_smoothstep, smoothstep_zero; split; lra.
Qed.

Lemma localProgress_one (m r : R) : localProgress m r = 1 <-> 2 + r <= 3 * m.
Proof.
  rewrite localProgress_smoothstep, smoothstep_one; split; lra.
Qed.

(** X10. The stagger of the foliage: the local progress of a particle never
    decreases when the morph value grows and never increases with the random
    phase; a particle of phase [r] has not started (progress 0) exactly while
    [3 m <= r], and has arrived (progress 1) exactly once [3 m >= 2 + r]. *)
Theorem foliage_stagger (m m' r r' : R) :
  (m <= m' -> localProgress m r <= localProgress m' r) /\
  (r <= r' -> localProgress m r' <= localProgress m r) /\
  (localProgress m r = 0 <-> 3 * m <= r) /\
  (localProgress m r = 1 <-> 2 + r <= 3 * m).
Proof.
  split; [| split; [| split]].
  - intros L; rewrite !localProgress_smoothstep.
    apply smoothstep_monotone; lra.
  - intros L; rewrite !localProgress_smoothstep.
    apply smoothstep_monotone; lra.
  - apply localProgress_zero.
  - apply localProgress_one.
Qed.

Lemma foliage_stagger_witness :
  localProgress 0.2 0.9 = 0 /\ localProgress 0.2 0.5 <= localProgress 0.6 0.5.
Proof.
  split.
  - apply (foliage_stagger 0.2 0.2 0.9 0.9); lra.
  - apply (foliage_stagger 0.2 0.6 0.5 0.5); lra.
Defined.

Lemma vadd_zero (p d : Vector3) : vadd p (vscale d 0) = p.
Proof.
  destruct p as [x y z]; unfold vadd, vscale; cbn [vx vy vz].
  f_equal; ring.
Qed.

Lemma mix3_at_1 (p q : Vector3) : mix3 p q 1 = q.
Proof.
  destruct q as [x y z]; unfold mix3, mix; cbn [vx vy vz]; f_equal; ring.
Qed.

Lemma mix3_at_0 (p q : Vector3) : mix3 p q 0 = p.
Proof.
  destruct p as [x y z]; unfold mix3, mix; cbn [vx vy vz]; f_equal; ring.
Qed.

(** X11. The two ends of the foliage morph.  Once [3 m >= 2 + r] (so at
    morph 1 for every phase of [0, 1]) the blend is complete and the breathing
    has faded out: the rendered position is the scatter position exactly,
    unless the scatter position is the origin, where the shader normalizes the
    zero vector and the position is undefined.  While [3 m <= r] (so at morph
    0 for every phase that is not negative) the rendered position is the tree
    position moved along its own direction by [sin(uTime*1.5 + r*10) * 0.05],
    and again undefined for a tree position at the origin. *)
Theorem foliage_morph_ends (uTime m r : R) (tree scatter : Vector3) :
  (2 + r <= 3 * m ->
   (vlength scatter <> 0 ->
    currentPos uTime m tree scatter r = Some scatter) /\
   (vlength scatter = 0 -> currentPos uTime m tree scatter r = None)) /\
  (3 * m <= r ->
   (vlength tree <> 0 ->
    currentPos uTime m tree scatter r
    = Some (vadd tree (vscale (vscale tree (/ vlength tree))
                              (sin (uTime * 1.5 + r * 10) * 0.05)))) /\
   (vlength tree = 0 -> currentPos uTime m tree scatter r = None)).
Proof.
  split; intros H; unfold currentPos, breathe; cbv zeta.
  - assert (E : localProgress m r = 1) by (apply localProgress_one; exact H).
    rewrite E, shaderEase_defined, ease_1, mix3_at_1 by lra.
    split; intros L.
    + rewrite (normalize_defined scatter L).
      replace (sin (uTime * 1.5 + r * 10.0) * 0.05 * (1.0 - 1)) with 0 by lra.
      rewrite vadd_zero; reflexivity.
    + rewrite (normalize_undefined scatter L); reflexivity.
  - assert (E : localProgress m r = 0) by (apply localProgress_zero; exact H).
    rewrite E, shaderEase_defined, ease_0, mix3_at_0 by lra.
    split; intros L.
    + rewrite (normalize_defined tree L). do 3 f_equal.
      replace 10.0 with 10 by lra. lra.
    + rewrite (normalize_undefined tree L); reflexivity.
Qed.

Lemma vlength_3_4_0 : vlength (mkVec 3 4 0) = 5.
Proof.
  unfold vlength; cbn [vx vy vz].
  replace (3 * 3 + 4 * 4 + 0 * 0) with (5 * 5) by lra.
  apply sqrt_square; lra.
Qed.

Lemma foliage_morph_ends_witness :
  currentPos 7 1 (mkVec 1 0 0) (mkVec 3 4 0) 0.5 = Some (mkVec 3 4 0).
Proof.
  apply (foliage_morph_ends 7 1 0.5 (mkVec 1 0 0) (mkVec 3 4 0));
    [lra | rewrite vlength_3_4_0; lra].
Defined.

End BlendMore.

(** ** More on the ornaments of the scene *)

Module OrnamentBlend.

Import Geometry ParticleScene NumFacts BlendFacts BlendMore Examples.

Lemma INR_100 : INR 100 = 100.
Proof. rewrite INR_IZR_INZ; reflexivity. Qed.

Lemma localMorph_clamp (m : R) (item : OrnamentData) :
  localMorph m item = Num.clamp (m * 1.2 - INR (id item) * 0.002) 0 1.
Proof. unfold localMorph; cbv zeta; apply three_clamp_unit. Qed.

Lemma lerp_position_0 (item : OrnamentData) (m : R) :
  smoothMorph m item = 0 -> ornamentPosition m item = treePosition item.
Proof.
  intros E; unfold ornamentPosition; cbv zeta; rewrite E.
  destruct (treePosition item) as [x y z]; unfold MathUtils.lerp;
    cbn [vx vy vz]; f_equal; ring.
Qed.

Lemma lerp_position_1 (item : OrnamentData) (m : R) :
  smoothMorph m item = 1 -> ornamentPosition m item = oScatterPosition item.
Proof.
  intros E; unfold ornamentPosition; cbv zeta; rewrite E.
  destruct (oScatterPosition item) as [x y z]; unfold MathUtils.lerp;
    cbn [vx vy vz]; f_equal; ring.
Qed.

(** The ease is below 1 strictly before 1. *)
Lemma ease_below_one (x : R) : x < 1 -> easeInOutCubic x < 1.
Proof.
  intros L. destruct (Rlt_dec x 0.5) as [X | X].
  - rewrite ease_low_eq by exact X.
    pose proof (cube_monotone x 0.5 ltac:(lra)). lra.
  - rewrite ease_high_eq by lra.
    assert (0 < (2 - 2 * x) * (2 - 2 * x) * (2 - 2 * x))
      by (apply Rmult_lt_0_compat; [apply Rmult_lt_0_compat |]; lra).
    lra.
Qed.

(** X12. The two ends of the ornament morph.  At morph 0 every ornament is at
    its tree position.  At morph 1 the ornaments with id up to 100 are at their
    scatter position, but those with a larger id (101 to 149 are generated)
    stop short of it: their eased progress stays under 1, because the offset
    [id * 0.002] exceeds the 0.2 of headroom that the gain 1.2 gives. *)
Theorem ornament_morph_ends (item : OrnamentData) :
  ornamentPosition 0 item = treePosition item /\
  ((id item <= 100)%nat ->
     ornamentPosition 1 item = oScatterPosition item) /\
  ((100 < id item)%nat ->
     smoothMorph 1 item < 1 /\
     forall m, m <= 1 -> smoothMorph m item < 1).
Proof.
  pose proof (pos_INR (id item)) as P.
  split; [| split].
  - apply lerp_position_0. rewrite smoothMorph_ease, localMorph_clamp.
    rewrite clamp_low by lra. apply ease_0.
  - intros L. apply lerp_position_1.
    rewrite smoothMorph_ease, localMorph_clamp.
    apply le_INR in L; rewrite INR_100 in L.
    rewrite clamp_high by lra. apply ease_1.
  - intros L. apply lt_INR in L; rewrite INR_100 in L.
    assert (B : forall m, m <= 1 -> smoothMorph m item < 1).
    { intros m Hm. rewrite smoothMorph_ease, localMorph_clamp.
      apply ease_below_one.
      destruct (Rle_dec (m * 1.2 - INR (id item) * 0.002) 0);
        [rewrite clamp_low by lra | rewrite clamp_id by lra]; lra. }
    split; [apply B; lra | exact B].
Qed.

Lemma ornament_morph_ends_witness :
  ornamentPosition 1 firstOrnament = mkVec 3 4 0.
Proof.
  apply (ornament_morph_ends firstOrnament). cbn [id firstOrnament]. lia.
Defined.

(** X13. The ornaments move as an ordered wave: at every morph value an
    ornament with a larger id is never further along than one with a smaller
    id, every ornament's eased progress is in [0, 1], and it never decreases
    when the morph value grows. *)
Theorem ornament_wave (m m' : R) (item item' : OrnamentData) :
  0 <= smoothMorph m item <= 1 /\
  ((id item <= id item')%nat -> smoothMorph m item' <= smoothMorph m item) /\
  (m <= m' -> smoothMorph m item <= smoothMorph m' item).
Proof.
  rewrite !smoothMorph_ease, !localMorph_clamp.
  split; [| split].
  - pose proof (clamp_range (m * 1.2 - INR (id item) * 0.002) 0 1
                  ltac:(lra)) as [L U].
    pose proof (ease_monotone 0 _ L) as A; rewrite ease_0 in A.
    pose proof (ease_monotone _ 1 U) as B; rewrite ease_1 in B.
    lra.
  - intros L; apply le_INR in L.
    apply ease_monotone, clamp_monotone; lra.
  - intros L. apply ease_monotone, clamp_monotone; lra.
Qed.

Lemma ornament_wave_witness :
  smoothMorph 0.5 firstOrnament <= smoothMorph 0.7 firstOrnament.
Proof.
  apply (ornament_wave 0.5 0.7 firstOrnament firstOrnament). lra.
Defined.

End OrnamentBlend.

(** ** More on the geometry generator *)

Module GeometryMore.

Import Geometry Ornaments NumFacts GeometryFacts Examples.

(** X14. A point of the spiral lies on the surface of the cone: for [t] in
    [0, 1] its distance from the axis is exactly the radius of the cone at
    its height, [(1 - t) * maxRadius], and its height runs from the base
    [-height/2 - 0.5] to the apex [height/2 - 0.5]. *)
Theorem spiral_on_cone_surface (t height maxRadius : R) :
  0 <= t <= 1 -> 0 < height -> 0 <= maxRadius ->
  radial (getSpiralPointOnCone t height maxRadius) = (1 - t) * maxRadius /\
  radial (getSpiralPointOnCone t height maxRadius)
  = coneRadiusAt height maxRadius
      (vy (getSpiralPointOnCone t height maxRadius)) /\
  - height / 2 - 0.5 <= vy (getSpiralPointOnCone t height maxRadius)
    <= height / 2 - 0.5.
Proof.
  intros Ht Hh Hm; unfold getSpiralPointOnCone; cbv zeta.
  rewrite polar_radial; cbn [vy].
  assert (P : 0 <= (1 - t) * maxRadius) by (apply Rmult_le_pos; lra).
  rewrite Rabs_pos_eq by exact P.
  split; [reflexivity | split].
  - unfold coneRadiusAt. f_equal. field; lra.
  - split; nra.
Qed.

Lemma spiral_on_cone_surface_witness :
  radial (getSpiralPointOnCone 0.5 7 3.1) = (1 - 0.5) * 3.1.
Proof.
  apply (spiral_on_cone_surface 0.5 7 3.1); lra.
Defined.

(** *** The attributes of the foliage *)

Lemma foliageBody_attributes (i : nat) (b : Buffers) (g : RandomSource) :
  bRandoms (fst (foliageBody i b g))
  = aset (bRandoms b) i (stream g (9 + pos g)) /\
  bSizes (fst (foliageBody i b g))
  = aset (bSizes b) i
         (if Num.ltb 0.9 (stream g (10 + pos g))
          then 2.0 + stream g (11 + pos g) * 2.0
          else 0.5 + stream g (11 + pos g) * 0.8) /\
  snd (foliageBody i b g) = advance 12 g.
Proof. repeat split. Qed.

Lemma size_classes (coin sz : R) :
  0 <= sz < 1 ->
  let size := if Num.ltb 0.9 coin then 2.0 + sz * 2.0 else 0.5 + sz * 0.8 in
  (0.9 < coin -> 2 <= size < 4) /\ (coin <= 0.9 -> 0.5 <= size < 1.3).
Proof.
  intros H; cbv zeta; destruct (ltb_reflect 0.9 coin); split; intros; lra.
Qed.

Lemma generateFoliageOf_attributes (n : nat) (g : RandomSource) (j : nat) :
  uniform g -> (j < n)%nat ->
  0 <= cell (randoms (fst (generateFoliageOf n g))) j < 1 /\
  (0.5 <= cell (sizes (fst (generateFoliageOf n g))) j < 1.3 \/
   2 <= cell (sizes (fst (generateFoliageOf n g))) j < 4).
Proof.
  intros U L.
  set (Inv := fun (i : nat) (b : Buffers) (g' : RandomSource) =>
    uniform g' /\ len (bRandoms b) = n /\ len (bSizes b) = n /\
    forall k : nat, (k < i)%nat -> (k < n)%nat ->
      0 <= cell (bRandoms b) k < 1 /\
      (0.5 <= cell (bSizes b) k < 1.3 \/ 2 <= cell (bSizes b) k < 4)).
  assert (Step : forall i b g', Inv i b g' ->
            Inv (S i) (fst (foliageBody i b g')) (snd (foliageBody i b g'))).
  { intros i b g' (Ug & Lr & Ls & H).
    destruct (foliageBody_attributes i b g') as (Er & Es & Eg).
    unfold Inv; rewrite Er, Es, Eg, !aset_len.
    split; [apply advance_uniform; exact Ug | split; [exact Lr |]].
    split; [exact Ls |]. intros k Lk Ln.
    destruct (Nat.eq_dec k i) as [-> | Ne].
    - rewrite !aset_same by lia. split; [apply Ug |].
      destruct (size_classes (stream g' (10 + pos g'))
                  (stream g' (11 + pos g')) (Ug _)) as [A B].
      destruct (Rlt_dec 0.9 (stream g' (10 + pos g'))) as [C | C];
        [right; apply A; exact C | left; apply B; lra].
    - rewrite !aset_other by exact Ne. apply H; [lia | exact Ln]. }
  pose proof (foliageLoop_invariant Inv Step n 0%nat
                (mkBuffers (newFloat32Array (n * 3)) (newFloat32Array (n * 3))
                           (newFloat32Array n) (newFloat32Array n)) g) as F.
  assert (I0 : Inv 0%nat
                 (mkBuffers (newFloat32Array (n * 3)) (newFloat32Array (n * 3))
                            (newFloat32Array n) (newFloat32Array n)) g).
  { unfold Inv; cbn [bRandoms bSizes newFloat32Array len].
    split; [exact U | split; [reflexivity | split; [reflexivity |]]].
    intros k Lk; lia. }
  specialize (F I0). destruct F as (_ & _ & _ & F).
  unfold generateFoliageOf, bind, ret.
  destruct (foliageLoop n 0 _ g) as [b g'']; cbn [fst snd] in *.
  cbn [randoms sizes]. apply F; lia.
Qed.

(** X15. For every generated foliage particle the random phase is in
    [0, 1) and the size is either a dust size of [0.5, 1.3) or a light size of
    [2, 4), whatever the random source; so the threshold 1.5 that the
    fragment shader tests tells the two classes apart: a size is over 1.5
    exactly when it is 2 or more. *)
Theorem foliage_attributes (g : RandomSource) (i : nat) :
  uniform g -> (i < FOLIAGE_COUNT)%nat ->
  0 <= cell (randoms (fst (generateFoliage g))) i < 1 /\
  (0.5 <= cell (sizes (fst (generateFoliage g))) i < 1.3 \/
   2 <= cell (sizes (fst (generateFoliage g))) i < 4) /\
  (1.5 < cell (sizes (fst (generateFoliage g))) i <->
   2 <= cell (sizes (fst (generateFoliage g))) i).
Proof.
  intros U L; unfold generateFoliage.
  destruct (generateFoliageOf_attributes FOLIAGE_COUNT g i U L) as [A B].
  split; [exact A | split; [exact B |]]. split; intros H; lra.
Qed.

Lemma foliage_attributes_witness :
  0 <= cell (randoms (fst (generateFoliage evenSource))) 0 < 1.
Proof.
  apply (foliage_attributes evenSource 0).
  - intros n; cbn [stream evenSource]; lra.
  - unfold FOLIAGE_COUNT; lia.
Defined.

Lemma radial_dominates (p : Vector3) :
  Rabs (vx p) <= radial p /\ Rabs (vz p) <= radial p.
Proof.
  unfold radial.
  pose proof (Rle_0_sqr (vx p)) as X; pose proof (Rle_0_sqr (vz p)) as Z.
  unfold Rsqr in *.
  split.
  - rewrite <- sqrt_Rsqr_abs; unfold Rsqr. apply sqrt_le_1; lra.
  - rewrite <- sqrt_Rsqr_abs; unfold Rsqr. apply sqrt_le_1; lra.
Qed.

(** X16. Every generated foliage particle has its formation position inside
    a fixed box, whatever the random source: height between -4.15 and 3.15,
    and at most 2.95 from the axis along [x] and along [z].  In particular
    the whole foliage is below the star, which sits at height 3.8. *)
Theorem formation_bounding_box (g : RandomSource) (i : nat) :
  uniform g -> (i < FOLIAGE_COUNT)%nat ->
  - 4.15 <= vy (formationPosition (fst (generateFoliage g)) i) < 3.15 /\
  Rabs (vx (formationPosition (fst (generateFoliage g)) i)) <= 2.95 /\
  Rabs (vz (formationPosition (fst (generateFoliage g)) i)) <= 2.95 /\
  vy (formationPosition (fst (generateFoliage g)) i)
  < vy SceneFrames.starTreePos.
Proof.
  intros U L; unfold generateFoliage.
  destruct (generateFoliageOf_particle FOLIAGE_COUNT g i L) as [_ ->].
  pose proof (advance_uniform (12 * i + 3) g U) as U3.
  pose proof (advance_uniform (12 * i + 6) g U) as U6.
  destruct (cone_inside TREE_HEIGHT TREE_RADIUS _ U3) as [P I];
    [unfold TREE_HEIGHT; lra | unfold TREE_RADIUS; lra |].
  destruct (fluff_small _ U6) as (Jx & Jy & Jz).
  pose proof (cone_height TREE_HEIGHT TREE_RADIUS (advance (12 * i + 3) g))
    as Ey.
  pose proof (U3 (pos (advance (12 * i + 3) g))) as [A0 A1].
  set (c := fst (getRandomPointInCone TREE_HEIGHT TREE_RADIUS _)) in *.
  set (j := fst (fluff _)) in *.
  set (a := stream _ _) in *.
  assert (R1 : coneRadiusAt TREE_HEIGHT TREE_RADIUS (vy c) <= 2.8).
  { rewrite Ey; unfold coneRadiusAt, TREE_HEIGHT, TREE_RADIUS. lra. }
  destruct (radial_dominates c) as [Dx Dz].
  unfold TREE_HEIGHT in Ey.
  unfold vadd, SceneFrames.starTreePos; cbn [vx vy vz].
  assert (Bx : Rabs (vx c + vx j) <= Rabs (vx c) + Rabs (vx j))
    by apply Rabs_triang.
  assert (Bz : Rabs (vz c + vz j) <= Rabs (vz c) + Rabs (vz j))
    by apply Rabs_triang.
  assert (Ax : Rabs (vx j) <= 0.15) by (apply Rabs_le; lra).
  assert (Az : Rabs (vz j) <= 0.15) by (apply Rabs_le; lra).
  repeat split; lra.
Qed.

Lemma formation_bounding_box_witness :
  vy (formationPosition (fst (generateFoliage evenSource)) 0) < 3.15.
Proof.
  apply (formation_bounding_box evenSource 0).
  - intros n; cbn [stream evenSource]; lra.
  - unfold FOLIAGE_COUNT; lia.
Defined.

End GeometryMore.

(** ** The generated ornaments *)

Module OrnamentGeneration.

Import Geometry Ornaments NumFacts GeometryFacts Examples.

Lemma floor_index_lt (x : R) (n : nat) :
  0 <= x < INR n -> (floor_index x < n)%nat.
Proof.
  intros [L U]; unfold floor_index.
  destruct (base_Int_part x) as [B1 B2].
  rewrite INR_IZR_INZ in U.
  assert (H1 : (Int_part x < Z.of_nat n)%Z) by (apply lt_IZR; lra).
  assert (H2 : (-1 < Int_part x)%Z) by (apply lt_IZR; lra).
  lia.
Qed.

Lemma uniform_same_stream (g g' : RandomSource) :
  stream g' = stream g -> uniform g -> uniform g'.
Proof. intros E U n; rewrite E; apply U. Qed.

Lemma pick_member (palette : list String.string) (g : RandomSource) :
  uniform g -> palette <> [] ->
  stream (snd (pick palette g)) = stream g /\
  exists c, fst (pick palette g) = Some c /\ In c palette.
Proof.
  intros U NE; unfold pick, bind, Math_random, ret; cbn [fst snd stream].
  split; [reflexivity |].
  pose proof (U (pos g)) as [A0 A1].
  assert (Lp : 0 < INR (length palette)).
  { destruct palette as [| c t]; [contradiction |].
    apply lt_0_INR; cbn [length]; lia. }
  assert (K : (floor_index (stream g (pos g) * INR (length palette))
               < length palette)%nat).
  { apply floor_index_lt; split; [apply Rmult_le_pos; lra | nra]. }
  destruct (nth_error palette _) as [c |] eqn:E.
  - exists c; split; [reflexivity | apply (nth_error_In _ _ E)].
  - apply nth_error_None in E; lia.
Qed.

(** The colour branch of the body. *)
Lemma colour_member (rand : R) (g : RandomSource) :
  uniform g ->
  let m := if Num.ltb rand 0.10 then ret (Some red)
           else if Num.ltb rand 0.40 then pick greens else pick golds in
  stream (snd (m g)) = stream g /\
  exists c, fst (m g) = Some c /\ In c (red :: greens ++ golds).
Proof.
  intros U; cbv zeta.
  destruct (Num.ltb rand 0.10).
  - split; [reflexivity |]. exists red; split; [reflexivity | left; reflexivity].
  - destruct (Num.ltb rand 0.40).
    + destruct (pick_member greens g U ltac:(discriminate)) as (S & c & E & I).
      split; [exact S |]. exists c; split; [exact E |].
      right; apply in_or_app; left; exact I.
    + destruct (pick_member golds g U ltac:(discriminate)) as (S & c & E & I).
      split; [exact S |]. exists c; split; [exact E |].
      right; apply in_or_app; right; exact I.
Qed.

Lemma random_value (g : RandomSource) :
  fst (Math_random g) = stream g (pos g).
Proof. reflexivity. Qed.

Lemma random_stream (g : RandomSource) :
  stream (snd (Math_random g)) = stream g.
Proof. reflexivity. Qed.

Lemma random_pos (g : RandomSource) : pos (snd (Math_random g)) = S (pos g).
Proof. reflexivity. Qed.

Lemma bind_run {A B : Type} (m : Rand A) (f : A -> Rand B)
    (g : RandomSource) :
  bind m f g = f (fst (m g)) (snd (m g)).
Proof. unfold bind; destruct (m g); reflexivity. Qed.

Lemma ornamentBody_spec (i : nat) (g : RandomSource) :
  uniform g ->
  let o := fst (ornamentBody i g) in
  let sp := getSpiralPointOnCone (INR i / INR ORNAMENT_COUNT) TREE_HEIGHT
              (TREE_RADIUS + 0.3) in
  stream (snd (ornamentBody i g)) = stream g /\
  ParticleScene.id (data o) = i /\
  vlength (ParticleScene.oScatterPosition (data o)) <= SCATTER_RADIUS * 0.8 /\
  Rabs (vx (ParticleScene.treePosition (data o)) - vx sp) <= 0.25 /\
  vy (ParticleScene.treePosition (data o)) = vy sp /\
  Rabs (vz (ParticleScene.treePosition (data o)) - vz sp) <= 0.25 /\
  0.12 <= ParticleScene.scale (data o) < 0.27 /\
  0 <= vx (ParticleScene.rotation (data o)) < PI /\
  0 <= vy (ParticleScene.rotation (data o)) < PI /\
  0 <= vz (ParticleScene.rotation (data o)) < PI /\
  exists c, color o = Some c /\ In c (red :: greens ++ golds).
Proof.
  intros U; cbv zeta.
  unfold ornamentBody. rewrite !bind_run.
  set (g1 := snd (Math_random g)).
  assert (U1 : uniform g1) by (apply (uniform_same_stream g); [reflexivity | exact U]).
  pose proof (sphere_inside (SCATTER_RADIUS * 0.8) g1 U1
                ltac:(unfold SCATTER_RADIUS; lra)) as Sph.
  set (g4 := snd (getRandomPointInSphere (SCATTER_RADIUS * 0.8) g1)).
  assert (Src : stream g4 = stream g)
    by (unfold g4; rewrite sphere_source; reflexivity).
  assert (U4 : uniform g4) by (apply (uniform_same_stream g); assumption).
  set (g5 := snd (Math_random g4)).
  set (g6 := snd (Math_random g5)).
  set (g7 := snd (Math_random g6)).
  assert (U7 : uniform g7)
    by (apply (uniform_same_stream g4); [reflexivity | exact U4]).
  destruct (colour_member (fst (Math_random g6)) g7 U7) as (Sc & c & Ec & Ic).
  cbv zeta in Sc, Ec.
  set (g8 := snd _) in Sc.
  fold g8. rewrite Ec.
  assert (U8 : uniform g8) by (apply (uniform_same_stream g7); assumption).
  unfold ret;
    cbn [fst snd data color ParticleScene.id
         ParticleScene.oScatterPosition ParticleScene.treePosition
         ParticleScene.scale ParticleScene.rotation vx vy vz].
  repeat rewrite ?random_value, ?random_stream, ?random_pos.
  assert (U5 : uniform g5)
    by (apply (uniform_same_stream g4); [reflexivity | exact U4]).
  pose proof (U4 (pos g4)) as N1.
  pose proof (U5 (pos g5)) as N2.
  pose proof (U8 (pos g8)) as R1.
  pose proof (U8 (S (pos g8))) as R2.
  pose proof (U8 (S (S (pos g8)))) as R3.
  pose proof (U8 (S (S (S (pos g8))))) as R4.
  pose proof PI_RGT_0 as Ppos.
  split; [rewrite Sc; exact Src |].
  split; [reflexivity |].
  split; [exact Sph |].
  split; [apply Rabs_le; lra |].
  split; [reflexivity |].
  split; [apply Rabs_le; lra |].
  split; [lra |].
  split; [split; [apply Rmult_le_pos; lra | nra] |].
  split; [split; [apply Rmult_le_pos; lra | nra] |].
  split; [split; [apply Rmult_le_pos; lra | nra] |].
  exists c; split; [reflexivity | exact Ic].
Qed.

Lemma ornamentLoop_invariant
    (Inv : nat -> list Ornament -> RandomSource -> Prop) :
  (forall i os g, Inv i os g ->
     Inv (S i) (os ++ [fst (ornamentBody i g)]) (snd (ornamentBody i g))) ->
  forall n i os g, Inv i os g ->
    Inv (n + i)%nat (fst (ornamentLoop n i os g))
        (snd (ornamentLoop n i os g)).
Proof.
  intros Step n; induction n as [| n IH]; intros i os g H; [exact H |].
  cbn [ornamentLoop]; rewrite bind_run.
  replace (S n + i)%nat with (n + S i)%nat by lia.
  apply IH, Step; exact H.
Qed.

(** Every element of the generated array satisfies what the body
    establishes for its index. *)
Lemma generateOrnaments_each (P : nat -> Ornament -> Prop)
    (g : RandomSource) :
  uniform g ->
  (forall i g', uniform g' -> P i (fst (ornamentBody i g'))) ->
  length (fst (generateOrnaments g)) = ORNAMENT_COUNT /\
  forall k o, nth_error (fst (generateOrnaments g)) k = Some o -> P k o.
Proof.
  intros U Body.
  set (Inv := fun (i : nat) (os : list Ornament) (g' : RandomSource) =>
    uniform g' /\ length os = i /\
    forall k o, nth_error os k = Some o -> P k o).
  assert (Step : forall i os g', Inv i os g' ->
            Inv (S i) (os ++ [fst (ornamentBody i g')])
                (snd (ornamentBody i g'))).
  { intros i os g' (Ug & Len & H).
    destruct (ornamentBody_spec i g' Ug) as (Sg & _).
    split; [apply (uniform_same_stream g'); assumption |].
    split; [rewrite length_app; cbn [length]; lia |].
    intros k o E.
    destruct (Nat.lt_ge_cases k (length os)) as [Lk | Gk].
    - rewrite nth_error_app1 in E by exact Lk. apply H; exact E.
    - rewrite nth_error_app2 in E by exact Gk.
      destruct (k - length os)%nat as [| d] eqn:D; cbn [nth_error] in E.
      + injection E as <-. replace k with i by lia. apply Body; exact Ug.
      + destruct d; discriminate. }
  pose proof (ornamentLoop_invariant Inv Step ORNAMENT_COUNT 0%nat [] g) as F.
  assert (I0 : Inv 0%nat [] g).
  { split; [exact U | split; [reflexivity |]].
    intros k o E; destruct k; discriminate. }
  specialize (F I0); destruct F as (_ & Len & H).
  unfold generateOrnaments. split; [rewrite Len; lia | exact H].
Qed.

(** X17. [generateOrnaments] returns 150 ornaments whose ids are their
    positions in the array, 0 to 149, whatever the random source.  The
    scatter position of each lies within 0.8 times the scatter radius of the
    origin, and its tree position is the point of the spiral at
    [t = id / 150] on the cone of radius 3.1, moved by at most 0.25 along [x]
    and along [z] and not at all in height. *)
Theorem ornaments_layout (g : RandomSource) :
  uniform g ->
  length (fst (generateOrnaments g)) = 150%nat /\
  forall k o, nth_error (fst (generateOrnaments g)) k = Some o ->
    (k < 150)%nat /\
    ParticleScene.id (data o) = k /\
    vlength (ParticleScene.oScatterPosition (data o)) <= SCATTER_RADIUS * 0.8 /\
    let sp := getSpiralPointOnCone (INR k / 150) TREE_HEIGHT
                (TREE_RADIUS + 0.3) in
    Rabs (vx (ParticleScene.treePosition (data o)) - vx sp) <= 0.25 /\
    vy (ParticleScene.treePosition (data o)) = vy sp /\
    Rabs (vz (ParticleScene.treePosition (data o)) - vz sp) <= 0.25.
Proof.
  intros U.
  assert (C : INR ORNAMENT_COUNT = 150)
    by (unfold ORNAMENT_COUNT; rewrite INR_IZR_INZ; reflexivity).
  destruct (generateOrnaments_each
              (fun i o =>
                 ParticleScene.id (data o) = i /\
                 vlength (ParticleScene.oScatterPosition (data o))
                 <= SCATTER_RADIUS * 0.8 /\
                 let sp := getSpiralPointOnCone (INR i / INR ORNAMENT_COUNT)
                             TREE_HEIGHT (TREE_RADIUS + 0.3) in
                 Rabs (vx (ParticleScene.treePosition (data o)) - vx sp)
                 <= 0.25 /\
                 vy (ParticleScene.treePosition (data o)) = vy sp /\
                 Rabs (vz (ParticleScene.treePosition (data o)) - vz sp)
                 <= 0.25) g U) as [Len H].
  { intros i g' U'.
    destruct (ornamentBody_spec i g' U') as (_ & A & B & Cx & Cy & Cz & _).
    cbv zeta; repeat split; assumption. }
  split; [exact Len |]. intros k o E.
  split.
  - assert (L : (k < length (fst (generateOrnaments g)))%nat)
      by (apply nth_error_Some; rewrite E; discriminate).
    rewrite Len in L; exact L.
  - specialize (H k o E); cbv zeta in H; rewrite C in H. exact H.
Qed.

Lemma ornaments_layout_witness :
  length (fst (generateOrnaments evenSource)) = 150%nat.
Proof.
  apply (ornaments_layout evenSource).
  intros n; cbn [stream evenSource]; lra.
Defined.

(** X18. Every generated ornament has a scale in [0.12, 0.27), three
    rotation angles in [0, PI), and a colour that is defined and is one of
    the seven palette colours (the red, a green or a gold): the palette index
    never falls outside the array. *)
Theorem ornaments_look (g : RandomSource) (o : Ornament) :
  uniform g -> In o (fst (generateOrnaments g)) ->
  0.12 <= ParticleScene.scale (data o) < 0.27 /\
  0 <= vx (ParticleScene.rotation (data o)) < PI /\
  0 <= vy (ParticleScene.rotation (data o)) < PI /\
  0 <= vz (ParticleScene.rotation (data o)) < PI /\
  exists c, color o = Some c /\ In c (red :: greens ++ golds).
Proof.
  intros U I. apply In_nth_error in I; destruct I as [k E].
  destruct (generateOrnaments_each
              (fun (_ : nat) o =>
                 0.12 <= ParticleScene.scale (data o) < 0.27 /\
                 0 <= vx (ParticleScene.rotation (data o)) < PI /\
                 0 <= vy (ParticleScene.rotation (data o)) < PI /\
                 0 <= vz (ParticleScene.rotation (data o)) < PI /\
                 exists c, color o = Some c /\ In c (red :: greens ++ golds))
              g U) as [_ H].
  { intros i g' U'.
    destruct (ornamentBody_spec i g' U')
      as (_ & _ & _ & _ & _ & _ & A & B & C & D & E').
    repeat split; try apply A; try apply B; try apply C; try apply D.
    exact E'. }
  apply (H k o E).
Qed.

Lemma evenSource_is_uniform : uniform evenSource.
Proof. intros n; cbn [stream evenSource]; lra. Qed.

Lemma ornaments_look_witness :
  exists o, In o (fst (generateOrnaments evenSource)) /\
    0.12 <= ParticleScene.scale (data o) < 0.27.
Proof.
  destruct (generateOrnaments_each (fun _ _ => True) evenSource
              evenSource_is_uniform (fun _ _ _ => I)) as [Len _].
  destruct (fst (generateOrnaments evenSource)) as [| o os] eqn:E;
    [discriminate Len |].
  exists o; split; [left; reflexivity |].
  apply (ornaments_look evenSource o evenSource_is_uniform).
  rewrite E; left; reflexivity.
Defined.

End OrnamentGeneration.

(** ** The camera rig *)

Module CameraRigFacts.

Import Geometry CameraRig NumFacts.


Lemma damp_decay (x y delta : R) :
  damp x y 2 delta = y + (x - y) * exp (- 2 * delta).
Proof.
  unfold damp, ParticleScene.MathUtils.lerp.
  match goal with
  | |- context [exp ?a] =>
      replace (exp a) with (exp (- 2 * delta)) by (f_equal; ring)
  end.
  ring.
Qed.



(** X20. The damping does not depend on the frame rate: with the same
    height target, a frame of duration [d1] followed by a frame of duration
    [d2] leaves the rig exactly where one frame of duration [d1 + d2] leaves
    it. *)
Theorem camera_rig_frame_rate_independent (targetHeight d1 d2 : R)
    (rig : Rig) :
  useFrame true targetHeight d2 (useFrame true targetHeight d1 rig)
  = useFrame true targetHeight (d1 + d2) rig.
Proof.
  unfold useFrame; cbv zeta; cbn [currentHeightRef].
  assert (E : damp (damp (currentHeightRef rig) (mappedHeight targetHeight)
                         2 d1)
                   (mappedHeight targetHeight) 2 d2
              = damp (currentHeightRef rig) (mappedHeight targetHeight) 2
                     (d1 + d2)).
  { rewrite !damp_decay.
    replace (- 2 * (d1 + d2)) with (- 2 * d1 + - 2 * d2) by ring.
    rewrite exp_plus. ring. }
  rewrite E; reflexivity.
Qed.

End CameraRigFacts.

(** ** The star, the [uMorph] uniform and the sparkle *)

Module SceneFramesFacts.

Import Geometry ParticleScene SceneFrames NumFacts BlendFacts BlendMore.

Lemma starEase_ease (m : R) : starEase m = easeInOutCubic m.
Proof.
  unfold starEase, easeInOutCubic; whole; reflexivity.
Qed.

(** X21. The star rides the vertical axis: its position is
    [(0, 3.8 + 6.2 * e, 0)] with [e] the same cubic ease as the foliage,
    applied to the morph value itself.  It is on the tree top at morph 0 and
    at height 10 at morph 1, never lower for a larger morph value, and between
    the two for every morph value of [0, 1]; its tilt about [x] stays within
    0.1 and its tilt about [z] within [-0.1, 0.6]. *)
Theorem star_motion (m m' time : R) :
  starPosition m = mkVec 0 (3.8 + 6.2 * easeInOutCubic m) 0 /\
  starPosition 0 = starTreePos /\
  starPosition 1 = starScatterPos /\
  (m <= m' -> vy (starPosition m) <= vy (starPosition m')) /\
  (0 <= m <= 1 ->
   3.8 <= vy (starPosition m) <= 10 /\
   - 0.1 <= vz (starRotation m time) <= 0.6) /\
  - 0.1 <= vx (starRotation m time) <= 0.1.
Proof.
  assert (P : forall u, starPosition u
                        = mkVec 0 (3.8 + 6.2 * easeInOutCubic u) 0).
  { intros u; unfold starPosition, lerpVectors, starTreePos, starScatterPos;
      cbn [vx vy vz]; rewrite starEase_ease; f_equal; lra. }
  split; [apply P | split; [| split; [| split; [| split]]]].
  - rewrite P, ease_0; unfold starTreePos; f_equal; lra.
  - rewrite P, ease_1; unfold starScatterPos; f_equal; lra.
  - intros L; rewrite !P; cbn [vy].
    pose proof (ease_monotone m m' L). lra.
  - intros [L U]. rewrite P; unfold starRotation; cbn [vy vz].
    rewrite starEase_ease.
    pose proof (ease_monotone 0 m L) as A; rewrite ease_0 in A.
    pose proof (ease_monotone m 1 U) as B; rewrite ease_1 in B.
    pose proof (SIN_bound (time * 0.5)) as [S0 S1].
    split; lra.
  - unfold starRotation; cbn [vx].
    pose proof (COS_bound (time * 0.5)) as [C0 C1]. lra.
Qed.

Lemma star_motion_witness :
  3.8 <= vy (starPosition 0.5) <= 10 /\
  vy (starPosition 0.2) <= vy (starPosition 0.9).
Proof.
  split.
  - apply (star_motion 0.5 0.5 0); lra.
  - apply (star_motion 0.2 0.9 0); lra.
Defined.

(** X22. The outline of the star: every vertex lies on the circle of radius
    0.5 when its index is even and of radius 0.25 when it is odd. *)
Theorem star_vertices_on_circles (i : nat) :
  fst (starVertex i) * fst (starVertex i)
  + snd (starVertex i) * snd (starVertex i)
  = if (i mod 2 =? 0)%nat then 0.5 * 0.5 else 0.25 * 0.25.
Proof.
  unfold starVertex; cbv zeta; cbn [fst snd].
  set (a := INR i / INR (5 * 2) * PI * 2 + PI / 2 * 3).
  pose proof (sin2_cos2 a) as T; unfold Rsqr in T.
  destruct (i mod 2 =? 0)%nat.
  - replace (cos a * 0.5 * (cos a * 0.5) + sin a * 0.5 * (sin a * 0.5))
      with (0.5 * 0.5 * (sin a * sin a + cos a * cos a)) by ring.
    rewrite T; ring.
  - replace (cos a * 0.25 * (cos a * 0.25) + sin a * 0.25 * (sin a * 0.25))
      with (0.25 * 0.25 * (sin a * sin a + cos a * cos a)) by ring.
    rewrite T; ring.
Qed.

Lemma uMorphFrame_distance (target u : R) :
  target - uMorphFrame target u = 0.95 * (target - u).
Proof. unfold uMorphFrame, MathUtils.lerp; lra. Qed.

Lemma uMorphAfter_distance (n : nat) (target u : R) :
  target - uMorphAfter n target u = 0.95 ^ n * (target - u).
Proof.
  induction n as [| n IH]; cbn [uMorphAfter]; [simpl; ring |].
  rewrite uMorphFrame_distance, IH; simpl; ring.
Qed.

(** X23. The [uMorph] uniform of the foliage trails the morph value it is
    given: after [n] rendered frames with the same [morphProgress] its
    distance to it is the first distance times [0.95 ^ n].  So it stays
    between its first value and [morphProgress], gets as close as one likes,
    but, having no snap, never equals [morphProgress] unless it started
    there. *)
Theorem uMorph_trails (n : nat) (morphProgress uMorph eps : R) :
  morphProgress - uMorphAfter n morphProgress uMorph
  = 0.95 ^ n * (morphProgress - uMorph) /\
  Rmin uMorph morphProgress <= uMorphAfter n morphProgress uMorph
    <= Rmax uMorph morphProgress /\
  (uMorph <> morphProgress ->
   uMorphAfter n morphProgress uMorph <> morphProgress) /\
  (0 < eps ->
   exists N : nat, forall k : nat, (N <= k)%nat ->
     Rabs (morphProgress - uMorphAfter k morphProgress uMorph) < eps).
Proof.
  pose proof (uMorphAfter_distance n morphProgress uMorph) as D.
  assert (P0 : 0 < 0.95 ^ n) by (apply pow_lt; lra).
  assert (P1 : 0.95 ^ n <= 1).
  { rewrite <- (pow1 n). apply pow_incr; lra. }
  split; [exact D | split; [| split]].
  - unfold Rmin, Rmax; destruct (Rle_dec uMorph morphProgress); split; nra.
  - intros N E. rewrite E in D.
    replace (morphProgress - morphProgress) with 0 in D by ring.
    assert (Z : morphProgress - uMorph = 0).
    { destruct (Rmult_integral _ _ (eq_sym D)) as [Z | Z]; [lra | exact Z]. }
    apply N; lra.
  - intros He.
    destruct (Req_dec_T (morphProgress - uMorph) 0) as [Z | NZ].
    + exists 0%nat; intros k _. rewrite uMorphAfter_distance, Z, Rmult_0_r.
      rewrite Rabs_R0; exact He.
    + assert (A : 0 < Rabs (morphProgress - uMorph))
        by (apply Rabs_pos_lt; exact NZ).
      destruct (pow_lt_1_zero 0.95) with (y := eps / Rabs (morphProgress - uMorph))
        as [N HN].
      * rewrite Rabs_pos_eq; lra.
      * apply Rdiv_lt_0_compat; assumption.
      * exists N; intros k L. rewrite uMorphAfter_distance, Rabs_mult.
        specialize (HN k L).
        apply (Rmult_lt_compat_r _ _ _ A) in HN.
        unfold Rdiv in HN; rewrite Rmult_assoc, Rinv_l, Rmult_1_r in HN; lra.
Qed.

Lemma uMorph_trails_witness :
  uMorphAfter 3 1 0 <> 1.
Proof.
  apply (uMorph_trails 3 1 0 1); lra.
Defined.

(** X24. The sparkle of the fragment shader.  The twinkle factor is always
    in [0, 1] and is 1 for a particle that does not sparkle; a particle
    sparkles when its size is over 1.5 or its phase over 0.8; the alpha factor
    of a light is in [0.8, 1].  The scatter hue is mixed in with weight
    [0.6 * vMorph]: for a morph value of [0, 1] each channel lies between the
    base channel and the scatter channel and keeps at least 40% of the
    base. *)
Theorem sparkle_ranges (uTime vSize vRandom base scatter vMorph : R) :
  0 <= twinkle uTime vSize vRandom <= 1 /\
  (vSize <= 1.5 -> vRandom <= 0.8 -> twinkle uTime vSize vRandom = 1) /\
  (sparkles vSize vRandom = true <-> 1.5 < vSize \/ 0.8 < vRandom) /\
  0.8 <= lightAlphaFactor uTime vSize vRandom <= 1 /\
  finalChannel base scatter vMorph
  = (1 - 0.6 * vMorph) * base + 0.6 * vMorph * scatter /\
  (0 <= vMorph <= 1 ->
   Rmin base scatter <= finalChannel base scatter vMorph
     <= Rmax base scatter /\
   Rabs (finalChannel base scatter vMorph - base)
   <= 0.6 * Rabs (scatter - base)).
Proof.
  assert (S : sparkles vSize vRandom = true <-> 1.5 < vSize \/ 0.8 < vRandom).
  { unfold sparkles; rewrite orb_true_iff.
    destruct (ltb_reflect 1.5 vSize); destruct (ltb_reflect 0.8 vRandom);
      split; intros [H | H]; try discriminate; auto. }
  assert (T : 0 <= twinkle uTime vSize vRandom <= 1).
  { unfold twinkle; destruct (sparkles vSize vRandom); cbv zeta; [| lra].
    pose proof (SIN_bound (uTime * (3.0 + vRandom * 5.0) + vRandom * 100.0)).
    lra. }
  split; [exact T | split; [| split; [exact S | split; [| split]]]].
  - intros A B; unfold twinkle.
    destruct (sparkles vSize vRandom); [| lra].
    destruct (proj1 S eq_refl); lra.
  - unfold lightAlphaFactor; destruct (Num.ltb 1.5 vSize); lra.
  - unfold finalChannel, mix; ring.
  - intros [L U]. unfold finalChannel, mix.
    split.
    + unfold Rmin, Rmax; destruct (Rle_dec base scatter); split; nra.
    + replace (base * (1 - vMorph * 0.6) + scatter * (vMorph * 0.6) - base)
        with (0.6 * vMorph * (scatter - base)) by ring.
      rewrite Rabs_mult, (Rabs_pos_eq (0.6 * vMorph)) by lra.
      pose proof (Rabs_pos (scatter - base)). nra.
Qed.

Lemma sparkle_ranges_witness :
  twinkle 0 1 0.5 = 1 /\
  Rmin 1 0.5 <= finalChannel 1 0.5 1 <= Rmax 1 0.5.
Proof.
  destruct (sparkle_ranges 0 1 0.5 1 0.5 1) as (_ & A & _ & _ & _ & B).
  split; [apply A; lra | apply B; lra].
Defined.

End SceneFramesFacts.

(** ** The shape of the generated foliage data *)

Module FoliageShape.

Import Geometry NumFacts GeometryFacts GeometryMore Examples.

(** X25. For every particle count [n], zero included, [generateFoliage]
    returns [count = n], position arrays of length [3 n] and attribute arrays
    of length [n], and reads exactly [12 n] numbers from the random source,
    whatever they are. *)
Theorem foliage_data_shape (n : nat) (g : RandomSource) :
  count (fst (generateFoliageOf n g)) = n /\
  len (scatterPositions (fst (generateFoliageOf n g))) = (n * 3)%nat /\
  len (treePositions (fst (generateFoliageOf n g))) = (n * 3)%nat /\
  len (randoms (fst (generateFoliageOf n g))) = n /\
  len (sizes (fst (generateFoliageOf n g))) = n /\
  snd (generateFoliageOf n g) = advance (12 * n) g.
Proof.
  set (Inv := fun (i : nat) (b : Buffers) (g' : RandomSource) =>
    g' = advance (12 * i) g /\
    len (bScatter b) = (n * 3)%nat /\ len (bTree b) = (n * 3)%nat /\
    len (bRandoms b) = n /\ len (bSizes b) = n).
  assert (Step : forall i b g', Inv i b g' ->
            Inv (S i) (fst (foliageBody i b g')) (snd (foliageBody i b g'))).
  { intros i b g' (Eg & L1 & L2 & L3 & L4).
    destruct (foliageBody_attributes i b g') as (Er & Es & Esrc).
    destruct (foliageBody_effect i b g') as (ra & si & Eb).
    unfold Inv; rewrite Er, Es, Esrc, !aset_len.
    rewrite Eb; cbn [fst bScatter bTree]; rewrite !store3_len.
    split; [| repeat split; assumption].
    subst g'; unfold advance; cbn [stream pos]; f_equal; lia. }
  pose proof (foliageLoop_invariant Inv Step n 0%nat
                (mkBuffers (newFloat32Array (n * 3)) (newFloat32Array (n * 3))
                           (newFloat32Array n) (newFloat32Array n)) g) as F.
  assert (I0 : Inv 0%nat
                 (mkBuffers (newFloat32Array (n * 3)) (newFloat32Array (n * 3))
                            (newFloat32Array n) (newFloat32Array n)) g).
  { unfold Inv; cbn [bScatter bTree bRandoms bSizes newFloat32Array len].
    split; [destruct g; reflexivity | repeat split]. }
  specialize (F I0). destruct F as (Eg & L1 & L2 & L3 & L4).
  unfold generateFoliageOf, bind, ret.
  destruct (foliageLoop n 0 _ g) as [b g'']; cbn [fst snd] in *.
  cbn [count scatterPositions treePositions randoms sizes].
  replace (n + 0)%nat with n in Eg by lia.
  repeat split; assumption.
Qed.

End FoliageShape.

(** ** The foliage blend as the shader renders it *)

Module FoliageClaims.

Import Geometry ParticleScene SceneFrames.
Import NumFacts SmoothingFacts BlendFacts BlendMore Examples.

Lemma smoothstep_at (x : R) :
  0 <= x <= 1 -> smoothstep 0 1 x = x * x * (3 - 2 * x).
Proof.
  intros H; unfold smoothstep; cbv zeta.
  replace ((x - 0) / (1 - 0)) with x by field.
  rewrite clamp_id by exact H. reflexivity.
Qed.

(** Counterexample to C4 as stated: the morph value the shader blends with
    is not the global morph value.  One tick after the toggle the smoothed
    morph value is 0.08; the first frame rendered with it moves the [uMorph]
    uniform from its initial 0 to 0.004 only, so the particle of phase 0 is
    rendered with local progress 0.000107568, where the formula at the morph
    value 0.08 gives 0.039744. *)
Lemma foliage_progress_lags_morph_value :
  morphProgress (Smoothing.loop (Handlers.toggleState startedApp)) = 0.08 /\
  uMorphFrame 0.08 0 = 0.004 /\
  renderedLocalProgress 0.08 0 0 = 0.000107568 /\
  Num.clamp (smoothstep 0 1 (0.08 * 1.5 - 0 * 0.5)) 0 1 = 0.039744 /\
  renderedLocalProgress 0.08 0 0
  <> Num.clamp (smoothstep 0 1 (0.08 * 1.5 - 0 * 0.5)) 0 1.
Proof.
  assert (A : morphProgress (Smoothing.loop (Handlers.toggleState startedApp))
              = 0.08).
  { cbn [Smoothing.loop morphProgress Handlers.toggleState startedApp
         Handlers.startExperience initialApp treeState TreeState_eqb
         targetMorphRef].
    unfold Smoothing.morphUpdater. rewrite approach_step; [lra |].
    replace (1 - 0) with 1 by lra. rewrite Rabs_R1. lra. }
  assert (B : uMorphFrame 0.08 0 = 0.004)
    by (unfold uMorphFrame, MathUtils.lerp; lra).
  assert (C : renderedLocalProgress 0.08 0 0 = 0.000107568).
  { unfold renderedLocalProgress. rewrite B, localProgress_smoothstep.
    rewrite smoothstep_at by lra. lra. }
  assert (D : Num.clamp (smoothstep 0 1 (0.08 * 1.5 - 0 * 0.5)) 0 1
              = 0.039744).
  { rewrite smoothstep_at by lra. rewrite clamp_id; lra. }
  split; [exact A | split; [exact B | split; [exact C | split; [exact D |]]]].
  rewrite C, D; lra.
Qed.

(** C4, amended. The morph value of the foliage is the shader's [uMorph]
    uniform, which every rendered frame moves 5% of the way toward the
    smoothed morph value and which therefore lags behind it.  With [m] that
    uniform, the local progress of the particle of phase [r] is
    [clamp(smoothstep(0, 1, m*1.5 - r*0.5), 0, 1)], a number of [0, 1]; the
    blended position [p] is the lerp of formation and scatter position at the
    cubic ease-in-out of the local progress ([4 x^3] below one half,
    [1 - (2 - 2x)^3 / 2] from there on); and, wherever [p] is not the zero
    vector, the rendered position is [p] plus the unit vector along [p] times
    [sin(uTime*1.5 + r*10) * 0.05 * (1 - localProgress)], an amount of size at
    most [0.05 * (1 - localProgress)]. *)
Theorem foliage_blend (uTime morphProgress uPrev r : R)
    (tree scatter : Vector3) :
  let m := uMorphFrame morphProgress uPrev in
  let lp := Num.clamp (smoothstep 0 1 (m * 1.5 - r * 0.5)) 0 1 in
  let e := if Rlt_dec lp (1 / 2) then 4 * lp ^ 3
           else 1 - (2 - 2 * lp) ^ 3 / 2 in
  let p := lerp3 tree scatter e in
  let amount := sin (uTime * 1.5 + r * 10) * 0.05 * (1 - lp) in
  m = uPrev + (morphProgress - uPrev) * 0.05 /\
  (m = morphProgress <-> uPrev = morphProgress) /\
  renderedLocalProgress morphProgress uPrev r = lp /\
  0 <= lp <= 1 /\
  Rabs amount <= 0.05 * (1 - lp) /\
  (vlength p <> 0 ->
   currentPos uTime m tree scatter r
   = Some (vadd p (vscale (vscale p (/ vlength p)) amount)) /\
   vlength (vscale p (/ vlength p)) = 1).
Proof.
  intros m lp e p amount.
  assert (Em : m = uPrev + (morphProgress - uPrev) * 0.05)
    by (subst m; unfold uMorphFrame, MathUtils.lerp; ring).
  assert (El : localProgress m r = lp).
  { subst lp; unfold localProgress; cbv zeta.
    replace 0.0 with 0 by lra. replace 1.0 with 1 by lra. reflexivity. }
  assert (U : 0 <= lp <= 1) by (subst lp; apply (clamp_range _ 0); lra).
  assert (Ee : easeInOutCubic lp = e).
  { subst e. destruct (Rlt_dec lp (1 / 2)) as [X | X].
    - rewrite ease_low_eq by lra. ring.
    - rewrite ease_high_eq by lra. field. }
  split; [exact Em | split; [| split; [exact El | split; [exact U | split]]]].
  - rewrite Em; split; intros H; lra.
  - subst amount.
    pose proof (SIN_bound (uTime * 1.5 + r * 10)) as [Lo Hi].
    rewrite !Rabs_mult, (Rabs_pos_eq 0.05), (Rabs_pos_eq (1 - lp)) by lra.
    assert (A : Rabs (sin (uTime * 1.5 + r * 10)) <= 1)
      by (apply Rabs_le; lra).
    nra.
  - intros NZ. split; [| apply unit_length; exact NZ].
    unfold currentPos, breathe; cbv zeta.
    rewrite El, shaderEase_defined, Ee, mix3_lerp3 by lra.
    fold p. rewrite (normalize_defined p NZ).
    do 3 f_equal. subst amount. replace 10.0 with 10 by lra. lra.
Qed.

Lemma foliage_blend_witness :
  exists q, currentPos 0 (uMorphFrame 0 0) (mkVec 3 4 0) (mkVec 1 0 0) 0
            = Some q.
Proof.
  assert (M : uMorphFrame 0 0 = 0) by (unfold uMorphFrame, MathUtils.lerp; lra).
  assert (L : Num.clamp (smoothstep 0 1 (uMorphFrame 0 0 * 1.5 - 0 * 0.5)) 0 1
              = 0).
  { rewrite M, smoothstep_at by lra. rewrite clamp_id; lra. }
  destruct (foliage_blend 0 0 0 0 (mkVec 3 4 0) (mkVec 1 0 0))
    as (_ & _ & _ & _ & _ & P).
  cbv zeta in P. rewrite L in P.
  destruct (Rlt_dec 0 (1 / 2)) as [X | X]; [| lra].
  assert (T : lerp3 (mkVec 3 4 0) (mkVec 1 0 0) (4 * 0 ^ 3) = mkVec 3 4 0)
    by (unfold lerp3; cbn [vx vy vz]; f_equal; ring).
  rewrite T in P.
  destruct P as [E _]; [rewrite vlength_3_4_0; lra |].
  eexists; exact E.
Defined.

End FoliageClaims.
